(** * BackDoUp: hybrid search, cache store, key builder and remote client

    A shallow embedding of the search-and-cache core of the service
    back end:

    - [src/services/cacheService.js]: modules [KeyBuilder] and
      [CacheService];
    - the configuration module [config/pythonApi], found in the source
      tree as the second half of [src/utils/logger.js] (lines 76-173):
      module [PythonApi];
    - the service module [services/pythonApiService] (in the source
      tree: [unnamed/part_003]): modules [PythonApiService] and
      [RawPythonApiService];
    - [src/models/User.js]: module [User];
    - [src/controllers/searchController.js], with the fields of the
      Service model ([unnamed/part_002]) it reads: modules
      [SearchController] and [RecentSearches].

    JavaScript strings are sequences of code units; the embedding keeps
    the code units below 256 (one [ascii] each), which covers every key,
    pattern and filter name the code builds.  Objects are association
    lists in enumeration order, [undefined] and [null] are explicit
    constructors, and every call to an external collaborator (document
    store, HTTP transport, clock) is an explicit input of the function
    that makes it. *)

From Stdlib Require Import List Ascii String ZArith QArith Lia Bool Arith.
From Stdlib Require Import Sorting.Sorted Sorting.Permutation.
From Stdlib Require Import Numbers.DecimalString Numbers.DecimalNat.
From stdpp Require Import base option list gmap fin_maps strings.

Import ListNotations.
Local Open Scope list_scope.
Local Open Scope nat_scope.

(** ** JavaScript values and strings *)

Module Js.

(** A string is the list of its code units. *)
Abbreviation str := (list ascii).

(** String literals. *)
Definition lit (s : string) : str := list_ascii_of_string s.

(** The values a filter can hold. *)
Inductive value : Type :=
| VUndefined
| VNull
| VStr (s : str)
| VNum (n : nat).

(** Template-literal conversion [`${v}`]. *)
Definition decimal (n : nat) : str :=
  lit (NilEmpty.string_of_uint (Nat.to_uint n)).

Definition to_string (v : value) : str :=
  match v with
  | VUndefined => lit "undefined"
  | VNull => lit "null"
  | VStr s => s
  | VNum n => decimal n
  end.

(** White space and line terminators below 256: TAB, LF, VT, FF, CR,
    SP and NBSP.  This is the class [\s] and the one [trim] strips. *)
Definition isWhiteSpace (c : ascii) : bool :=
  let n := nat_of_ascii c in
  ((9 <=? n) && (n <=? 13)) || (n =? 32) || (n =? 160).

(** [String.prototype.toLowerCase], one code unit at a time: A-Z, and
    the Latin-1 capitals 192-222 except the multiplication sign 215. *)
Definition lowerChar (c : ascii) : ascii :=
  let n := nat_of_ascii c in
  if ((65 <=? n) && (n <=? 90))
     || ((192 <=? n) && (n <=? 222) && negb (n =? 215))
  then ascii_of_nat (n + 32) else c.

Definition toLowerCase (s : str) : str := map lowerChar s.

Fixpoint trimStart (s : str) : str :=
  match s with
  | c :: r => if isWhiteSpace c then trimStart r else s
  | [] => []
  end.

Definition trimEnd (s : str) : str := rev (trimStart (rev s)).

(** [String.prototype.trim]. *)
Definition trim (s : str) : str := trimEnd (trimStart s).

(** [s.replace(/\s+/g, ' ')]: a left-to-right scan; [inRun] says that
    the previous code unit belonged to the run being replaced. *)
Fixpoint collapseFrom (inRun : bool) (s : str) : str :=
  match s with
  | [] => []
  | c :: r =>
      if isWhiteSpace c
      then (if inRun then collapseFrom true r
            else " "%char :: collapseFrom true r)
      else c :: collapseFrom false r
  end.

Definition replaceWhiteSpaceRuns (s : str) : str := collapseFrom false s.

(** [Array.prototype.join]. *)
Fixpoint join (sep : str) (l : list str) : str :=
  match l with
  | [] => []
  | [x] => x
  | x :: r => x ++ sep ++ join sep r
  end.

(** [a.localeCompare(b)] in the default (root) collation of the
    engine, on texts made of ASCII letters, ASCII digits and the
    control characters the collation ignores (U+0000 to U+0008, U+000E
    to U+001F and U+007F); the names the callers use (category, limit,
    location, page, price) are among them.  The ignored code units are
    skipped; the texts are compared by their primary weights first (a
    letter weighs the same in both cases, digits come before letters, a
    prefix before its extensions) and, when these are the same, by case,
    a lower-case letter before its capital at the first difference.  So
    two texts that differ in ignored code units only compare as equal.
    On other code units the function goes by the code units; the
    theorems that compare names say which names they are about. *)
Definition isIgnorable (c : ascii) : bool :=
  let n := nat_of_ascii c in
  (n <=? 8) || ((14 <=? n) && (n <=? 31)) || (n =? 127).

Definition isCapital (c : ascii) : bool :=
  let n := nat_of_ascii c in (65 <=? n) && (n <=? 90).

Definition primaryWeight (c : ascii) : nat :=
  if isCapital c then nat_of_ascii c + 32 else nat_of_ascii c.

Definition caseWeight (c : ascii) : nat := if isCapital c then 1 else 0.

Definition collated (s : str) : str :=
  List.filter (fun c => negb (isIgnorable c)) s.

Fixpoint compareWeights (a b : list nat) : comparison :=
  match a, b with
  | [], [] => Eq
  | [], _ :: _ => Lt
  | _ :: _, [] => Gt
  | x :: a', y :: b' =>
      match Nat.compare x y with
      | Eq => compareWeights a' b'
      | o => o
      end
  end.

Definition localeCompare (a b : str) : comparison :=
  match compareWeights (map primaryWeight (collated a))
          (map primaryWeight (collated b)) with
  | Eq => compareWeights (map caseWeight (collated a))
            (map caseWeight (collated b))
  | o => o
  end.

(** [Array.prototype.sort(cmp)]: the sort is stable.  [cmp a b] is the
    sign of the comparator's result ([Lt]: a first, [Gt]: b first,
    [Eq]: keep the order; a NaN result counts as [Eq]).  Insertion
    from the right keeps equal elements in their original order; for a
    comparator that is a consistent ordering every stable sort returns
    this list, and so does the engine.  For a comparator that is not
    one the language leaves the order to the engine, and this list need
    not be the one it returns: it is a permutation of the input, and
    nothing more is drawn from it there. *)
Section Sort.
Context {A : Type} (cmp : A -> A -> comparison).

Fixpoint insert (x : A) (l : list A) : list A :=
  match l with
  | [] => [x]
  | y :: r =>
      match cmp x y with
      | Gt => y :: insert x r
      | _ => x :: l
      end
  end.

Fixpoint sort (l : list A) : list A :=
  match l with
  | [] => []
  | x :: r => insert x (sort r)
  end.
End Sort.

(** [Array.prototype.slice(start, end)] for [start <= end]. *)
Definition slice {A : Type} (start stop : nat) (l : list A) : list A :=
  firstn (stop - start) (skipn start l).

End Js.

Import Js.

(** ** The cache service: key builder *)

Module KeyBuilder.

(** An object literal: its own enumerable entries, in order. *)
Abbreviation object := (list (str * value)).

(** [value !== null && value !== undefined && value !== ''] *)
Definition retained (e : str * value) : bool :=
  match snd e with
  | VUndefined | VNull => false
  | VStr [] => false
  | _ => true
  end.

Definition compareNames (e1 e2 : str * value) : comparison :=
  localeCompare (fst e1) (fst e2).

Definition renderEntry (e : str * value) : str :=
  fst e ++ lit ":" ++ to_string (snd e).

(** [query.toLowerCase().trim().replace(/\s+/g, ' ')] *)
Definition normalizeQuery (query : str) : str :=
  replaceWhiteSpaceRuns (trim (toLowerCase query)).

Definition filtersStr (filters : object) : str :=
  join (lit "|")
    (map renderEntry (sort compareNames (List.filter retained filters))).

(** [getSearchKey(query, filters = {})] *)
Definition getSearchKey (query : str) (filters : object) : str :=
  let normalizedQuery := normalizeQuery query in
  let fs := filtersStr filters in
  lit "search:q:" ++ normalizedQuery ++
    (match fs with
     | [] => []
     | _ => lit ":filters:" ++ fs
     end).

(** [getCategoryKey], [getServicesKey], [getUserKey]. *)
Definition getCategoryKey (categoryId : option str) : str :=
  lit "categories:" ++ default (lit "all") categoryId.

Definition getServicesKey (serviceId categoryId : option str)
    (page limit : nat) : str :=
  match serviceId, categoryId with
  | Some ((_ :: _) as sid), _ => lit "services:id:" ++ sid
  | _, Some ((_ :: _) as cid) =>
      lit "services:category:" ++ cid ++ lit ":page:" ++ decimal page
        ++ lit ":limit:" ++ decimal limit
  | _, _ =>
      lit "services:all:page:" ++ decimal page ++ lit ":limit:"
        ++ decimal limit
  end.

Definition getUserKey (userId : str) (type : str) : str :=
  lit "user:" ++ userId ++ lit ":" ++ type.

End KeyBuilder.

Import KeyBuilder.

(** ** Regular expressions

    [invalidatePattern] hands its pattern to [new RegExp].  The
    embedding covers the part of the pattern language that cache
    patterns are written in: literal code units, the wildcard [.] and
    the postfix star.  [compile] answers [None] for a source outside
    that fragment (the other syntax characters, most of which
    [new RegExp] does compile) and for a star with nothing to repeat,
    which [new RegExp] rejects with a SyntaxError.  What holds for every
    regular expression is stated over [invalidateMatching] below. *)

Module RegExp.

Inductive atom : Type :=
| Lit (c : ascii)
| AnyChar.

(** A piece is an atom and whether a star follows it. *)
Abbreviation piece := (atom * bool)%type.

Definition isSyntaxChar (c : ascii) : bool :=
  existsb (Ascii.eqb c) (lit "^$\.*+?()[]{}|").

Definition atomOf (c : ascii) : option atom :=
  if Ascii.eqb c "."%char then Some AnyChar
  else if isSyntaxChar c then None
  else Some (Lit c).

Fixpoint compile (src : str) : option (list piece) :=
  match src with
  | [] => Some []
  | c :: r =>
      match atomOf c with
      | None => None
      | Some a =>
          match r with
          | "*"%char :: r' => cons (a, true) <$> compile r'
          | _ => cons (a, false) <$> compile r
          end
      end
  end.

(** [.] matches every code unit but the line terminators. *)
Definition accepts (a : atom) (c : ascii) : bool :=
  match a with
  | Lit x => Ascii.eqb x c
  | AnyChar => negb (Ascii.eqb c "010"%char || Ascii.eqb c "013"%char)
  end.

(** A match of the pieces that starts at the head of [s]. *)
Fixpoint matchHere (r : list piece) : str -> bool :=
  match r with
  | [] => fun _ => true
  | (a, false) :: r' =>
      fun s =>
        match s with
        | c :: s' => accepts a c && matchHere r' s'
        | [] => false
        end
  | (a, true) :: r' =>
      fix star (s : str) : bool :=
        matchHere r' s
        || match s with
           | c :: s' => accepts a c && star s'
           | [] => false
           end
  end.

(** [regex.test(s)] without flags: a match may start anywhere. *)
Fixpoint test (r : list piece) (s : str) : bool :=
  matchHere r s
  || match s with
     | _ :: s' => test r s'
     | [] => false
     end.

End RegExp.

(** ** The cache service: store (src/services/cacheService.js)

    The store wraps node-cache.  An entry keeps its value and the time
    [t] (milliseconds) after which node-cache no longer returns it; 0
    means no expiry.  The clock is an argument of the operations that
    read it. *)

Module CacheService.

Record entry (V : Type) : Type := mkEntry {
  v : V;
  t : Z
}.
Arguments mkEntry {V}.
Arguments v {V}.
Arguments t {V}.

Record counters : Type := mkCounters {
  hits : nat;
  misses : nat;
  sets : nat
}.

Record service (V : Type) : Type := mkService {
  cache : gmap str (entry V);
  stats : counters
}.
Arguments mkService {V}.
Arguments cache {V}.
Arguments stats {V}.

(** [this.cacheTTL] *)
Definition cacheTTL_categories : nat := 3600.
Definition cacheTTL_services : nat := 1800.
Definition cacheTTL_search : nat := 300.
Definition cacheTTL_user : nat := 60.
Definition cacheTTL_default : nat := 600.

(** [String.prototype.startsWith] *)
Fixpoint startsWith (s prefix : str) {struct prefix} : bool :=
  match prefix, s with
  | [], _ => true
  | p :: prefix', c :: s' => Ascii.eqb p c && startsWith s' prefix'
  | _ :: _, [] => false
  end.

Definition getCacheTTLForKey (key : str) : nat :=
  if startsWith key (lit "categories:") then cacheTTL_categories
  else if startsWith key (lit "services:") then cacheTTL_services
  else if startsWith key (lit "search:") then cacheTTL_search
  else if startsWith key (lit "user:") then cacheTTL_user
  else cacheTTL_default.

(** [pattern.replace('*', '.*')]: a string pattern replaces its first
    occurrence only. *)
Fixpoint replaceFirst (c : ascii) (by_ : str) (s : str) : str :=
  match s with
  | [] => []
  | x :: r => if Ascii.eqb x c then by_ ++ r else x :: replaceFirst c by_ r
  end.

Section Store.
Context {V : Type}.

Definition empty : service V :=
  mkService ∅ (mkCounters 0 0 0).

(** node-cache [get]: an entry past its time is dropped and reads as
    [undefined]. *)
Definition nodeGet (now : Z) (key : str) (data : gmap str (entry V))
    : option V * gmap str (entry V) :=
  match data !! key with
  | Some e =>
      if negb (t e =? 0)%Z && (t e <? now)%Z
      then (None, delete key data)
      else (Some (v e), data)
  | None => (None, data)
  end.

(** [get(key)] *)
Definition get (now : Z) (key : str) (s : service V)
    : option V * service V :=
  let '(value, data) := nodeGet now key (cache s) in
  let st := stats s in
  match value with
  | Some _ =>
      (value, mkService data (mkCounters (S (hits st)) (misses st) (sets st)))
  | None =>
      (value, mkService data (mkCounters (hits st) (S (misses st)) (sets st)))
  end.

(** [set(key, value, ttl = null)]; [value] is [None] for [undefined]
    and [null], [ttl] is [None] when the argument is left out.
    node-cache stores the entry and answers [true]. *)
Definition set (now : Z) (key : str) (value : option V) (ttl : option nat)
    (s : service V) : bool * service V :=
  match value with
  | None => (false, s)
  | Some x =>
      let cacheTTL :=
        match ttl with
        | Some ((S _) as n) => n
        | _ => getCacheTTLForKey key
        end in
      let st := stats s in
      (true,
       mkService
         (<[key := mkEntry x (now + Z.of_nat cacheTTL * 1000)%Z]> (cache s))
         (mkCounters (hits st) (misses st) (S (sets st))))
  end.

(** node-cache [del]: the number of entries removed. *)
Definition nodeDel (key : str) (data : gmap str (entry V))
    : nat * gmap str (entry V) :=
  match data !! key with
  | Some _ => (1, delete key data)
  | None => (0, data)
  end.

(** [delete(key)] *)
Definition delete_ (key : str) (s : service V) : nat * service V :=
  let '(deleted, data) := nodeDel key (cache s) in
  (deleted, mkService data (stats s)).

(** node-cache [keys]. *)
Definition keys (data : gmap str (entry V)) : list str :=
  (map_to_list data).*1.

(** [invalidatePattern(pattern)]; [None] when the pattern is outside
    the embedded fragment or rejected by [new RegExp] (see
    [RegExp.compile]). *)
Definition invalidatePattern (pattern : str) (s : service V)
    : option (nat * service V) :=
  match RegExp.compile (replaceFirst "*"%char (lit ".*") pattern) with
  | None => None
  | Some regex =>
      let matchingKeys := List.filter (RegExp.test regex) (keys (cache s)) in
      let '(deletedCount, data) :=
        fold_left
          (fun acc key => (S (fst acc), snd (nodeDel key (snd acc))))
          matchingKeys (0, cache s) in
      Some (deletedCount, mkService data (stats s))
  end.

(** [clear()] *)
Definition clear (s : service V) : bool * service V :=
  (true, mkService ∅ (stats s)).

End Store.

End CacheService.

(** ** The HTTP client of the remote service (config/pythonApi)

    [apiClient] is an axios instance with a response interceptor.  The
    transport is an input: [transport n] is how the [n]-th request sent
    on behalf of one logical call settles.  A run records the requests
    sent, every retry the interceptor scheduled (with the counter value
    it logged and the delay it waited) and how often it set the [_retry]
    flag. *)

Module PythonApi.

Section Client.
Context {D : Type}.

Record response : Type := mkResponse {
  status : nat;
  data : D
}.

(** An axios error: [error.code], [error.response], and whether
    [error.config] is there. *)
Record axiosError : Type := mkError {
  code : option str;
  error_response : option response;
  error_config : bool
}.

Inductive outcome : Type :=
| Fulfilled (r : response)
| Rejected (e : axiosError).

(** The two custom fields of a request configuration; [_retryCount] is
    [None] while the property is [undefined]. *)
Record requestConfig : Type := mkConfig {
  _retry : bool;
  _retryCount : option nat
}.

Record retry : Type := mkRetry {
  retry_error : axiosError;
  retry_count : nat;
  retry_delay : nat
}.

Record run : Type := mkRun {
  final : outcome;
  attempts : nat;
  retries : list retry;
  flagsSet : nat
}.

(** [pythonApiConfig.maxRetries]; 3 unless the environment says
    otherwise. *)
Definition defaultMaxRetries : nat := 3.

Definition ECONNABORTED : str := lit "ECONNABORTED".

Definition isECONNABORTED (e : axiosError) : bool :=
  match code e with
  | Some c => bool_decide (c = ECONNABORTED)
  | None => false
  end.

Definition noResponse (e : axiosError) : bool :=
  match error_response e with
  | Some _ => false
  | None => true
  end.

(** [originalRequest._retryCount < maxRetries]: [undefined < n] is
    false. *)
Definition retryCountBelow (c : option nat) (maxRetries : nat) : bool :=
  match c with
  | Some n => n <? maxRetries
  | None => false
  end.

(** The condition of the [if] in the error interceptor. *)
Definition shouldRetry (maxRetries : nat) (e : axiosError)
    (originalRequest : requestConfig) : bool :=
  (isECONNABORTED e || noResponse e)
  && error_config e
  && negb (_retry originalRequest)
  && retryCountBelow (_retryCount originalRequest) maxRetries.

(** [Math.pow(2, originalRequest._retryCount) * 1000] *)
Definition backoffDelay (retryCount : nat) : nat := 2 ^ retryCount * 1000.

(** [apiClient(config)]: send, and on an error run the interceptor,
    which either rejects or marks the configuration, waits and sends it
    again through the same client. *)
Fixpoint request (fuel : nat) (maxRetries : nat) (transport : nat -> outcome)
    (n : nat) (config : requestConfig) : option run :=
  match fuel with
  | 0 => None
  | S fuel' =>
      match transport n with
      | Fulfilled r => Some (mkRun (Fulfilled r) 1 [] 0)
      | Rejected e =>
          if shouldRetry maxRetries e config then
            let count := default 0 (_retryCount config) + 1 in
            let originalRequest := mkConfig true (Some count) in
            match request fuel' maxRetries transport (S n) originalRequest with
            | Some r =>
                Some (mkRun (final r) (S (attempts r))
                        (mkRetry e count (backoffDelay count) :: retries r)
                        (S (flagsSet r)))
            | None => None
            end
          else Some (mkRun (Rejected e) 1 [] 0)
      end
  end.

(** One logical call.  Every retry raises the counter, so
    [S maxRetries] requests are enough (lemma [apiClient_total]). *)
Definition apiClient (maxRetries : nat) (transport : nat -> outcome)
    (config : requestConfig) : option run :=
  request (S maxRetries) maxRetries transport 0 config.

(** The configuration [client.post(url, body)] starts from. *)
Definition freshConfig : requestConfig := mkConfig false None.

(** What [await pythonApi.client.post(...)] settles to. *)
Definition post (maxRetries : nat) (transport : nat -> outcome) : outcome :=
  match apiClient maxRetries transport freshConfig with
  | Some r => final r
  | None => Rejected (mkError None None true)
  end.

End Client.

Arguments response : clear implicits.
Arguments axiosError : clear implicits.
Arguments outcome : clear implicits.
Arguments retry : clear implicits.
Arguments run : clear implicits.

End PythonApi.

(** ** Users (src/models/User.js) *)

Module User.

Record recentSearch : Type := mkRecentSearch {
  query : str;
  timestamp : Z
}.

Record user : Type := mkUser {
  verified : bool;
  paidServices : list str;
  recentSearches : list recentSearch
}.

(** [UserSchema.methods.addRecentSearch] *)
Definition addRecentSearch (q : str) (now : Z) (u : user) : user :=
  let unshifted := mkRecentSearch q now :: recentSearches u in
  mkUser (verified u) (paidServices u)
    (if 10 <? length unshifted then slice 0 10 unshifted else unshifted).

(** [UserSchema.methods.hasAccessToService] *)
Definition hasAccessToService (serviceId : str) (u : user) : bool :=
  existsb (fun id => bool_decide (id = serviceId)) (paidServices u).

End User.

(** ** The remote search service (services/pythonApiService) *)

Module PythonApiService.

(** One record of the [results] array of [/custom-search]. *)
Record candidate : Type := mkCandidate {
  r_title : str;
  r_category : value;
  r_rating : option Q;
  r_relevance : option Q;
  r_contactInfo : option str;
  r_sourceUrl : option str
}.

(** [response.data] where it is an object: [results] may be missing.
    (For a body that is [null]: module [RawPythonApiService].) *)
Abbreviation payload := (option (list candidate)).

Record searchResult : Type := mkSearchResult {
  success : bool;
  results : list candidate
}.

(** [customSearch(query, userId)], given what the HTTP call settles to.
    [None]: the method throws (every error is rethrown as a new Error,
    and so is a status other than 200). *)
Definition customSearch (settled : PythonApi.outcome payload)
    : option searchResult :=
  match settled with
  | PythonApi.Fulfilled r =>
      if PythonApi.status r =? 200
      then Some (mkSearchResult true (default [] (PythonApi.data r)))
      else None
  | PythonApi.Rejected _ => None
  end.

End PythonApiService.

(** ** The search controller (src/controllers/searchController.js) *)

Module SearchController.

Import PythonApiService.

(** A service document, with the fields the search reads. *)
Record service : Type := mkService {
  _id : str;
  title : str;
  category : value;
  rating : option Q;
  relevance : option Q;
  contactInfo : str;
  sourceUrl : option str;
  premiumOnly : bool;
  verified : bool
}.

(** The cached unit. *)
Record resultSet : Type := mkResultSet {
  rs_data : list service;
  rs_page : nat;
  rs_limit : nat;
  rs_total : nat
}.

(** [req.user] *)
Record caller : Type := mkCaller {
  id : str;
  caller_verified : bool
}.

(** [req.body], and the request. *)
Record body : Type := mkBody {
  b_query : str;
  b_category : value;
  b_location : value;
  b_price : value;
  b_page : option nat;
  b_limit : option nat
}.

Record request : Type := mkRequest {
  req_body : body;
  req_user : option caller
}.

(** The validated parameters, with the defaults filled in. *)
Record params : Type := mkParams {
  query : str;
  p_category : value;
  p_location : value;
  p_price : value;
  page : nat;
  limit : nat
}.

(** [schemas.search] *)
Definition stringOrNull (x : value) : bool :=
  match x with
  | VNum _ => false
  | _ => true
  end.

Definition validPrice (x : value) : bool :=
  match x with
  | VStr s =>
      existsb (fun p => bool_decide (s = p))
        [lit "$"; lit "$$"; lit "$$$"; lit "$$$$"; lit ""]
  | VNum _ => false
  | _ => true
  end.

Definition validate (b : body) : option params :=
  let pg := default 1 (b_page b) in
  let lm := default 20 (b_limit b) in
  if (2 <=? length (b_query b)) && (length (b_query b) <=? 100)
     && stringOrNull (b_category b) && stringOrNull (b_location b)
     && validPrice (b_price b)
     && (1 <=? pg) && (1 <=? lm) && (lm <=? 50)
  then Some (mkParams (b_query b) (b_category b) (b_location b)
               (b_price b) pg lm)
  else None.

(** The query handed to the document store: the text, the filters that
    are set, and the restriction to records that are not premium. *)
Record storeQuery : Type := mkStoreQuery {
  q_text : str;
  q_category : option str;
  q_location : option str;
  q_price : option str;
  q_nonPremiumOnly : bool;
  q_skip : nat;
  q_limit : nat
}.

(** [x || undefined] for a filter. *)
Definition orUndefined (x : value) : option str :=
  match x with
  | VStr ((_ :: _) as s) => Some s
  | _ => None
  end.

(** What the collaborators answer during one request. *)
Record env : Type := mkEnv {
  now : Z;
  maxRetries : nat;
  (** [Promise.all([Service.find(..), Service.countDocuments(..)])];
      [None] when the store rejects. *)
  Service_find : storeQuery -> option (list service * nat);
  transport : nat -> PythonApi.outcome payload;
  (** [Service.findOne] for the [i]-th candidate; [None] when it
      rejects. *)
  Service_findOne : nat -> candidate -> value -> option (option service);
  (** The identity given to the document built for the [i]-th
      candidate, and whether its [save()] succeeds. *)
  Service_newId : nat -> str;
  Service_save : nat -> service -> bool;
  User_findById_rejects : bool;
  User_save_rejects : bool
}.

Inductive logEntry : Type :=
| ErrorSearch
| ErrorSaveScraped (i : nat)
| ErrorRecordSearch.

Record world : Type := mkWorld {
  cacheService : CacheService.service resultSet;
  users : gmap str User.user;
  errorLog : list logEntry
}.

(** Responses (src/utils/responseFormatter.js). *)
Inductive message : Type :=
| FromCache
| Obtained
| ObtainedCombined
| ValidationFailed
| ProcessingFailed.

Record pagination : Type := mkPagination {
  pg_page : nat;
  pg_limit : nat;
  pg_total : nat;
  pg_totalPages : nat;
  pg_hasNextPage : bool;
  pg_hasPrevPage : bool
}.

Record response : Type := mkResponse {
  statusCode : nat;
  resp_success : bool;
  resp_message : message;
  resp_data : option (list service);
  resp_meta : option pagination
}.

(** [Math.ceil(total / limit)] for [limit >= 1]. *)
Definition ceilDiv (total lim : nat) : nat := (total + lim - 1) / lim.

Definition paginated (d : list service) (pg lm total : nat) (m : message)
    : response :=
  let totalPages := ceilDiv total lm in
  mkResponse 200 true m (Some d)
    (Some (mkPagination pg lm total totalPages (pg <? totalPages) (1 <? pg))).

Definition error (code : nat) (m : message) : response :=
  mkResponse code false m None None.

Definition validationError : response := error 400 ValidationFailed.

(** The value written over the contact of a premium record. *)
Definition sentinel : str := lit "*** Requiere pago para acceder ***".

(** The body of the [map] that hides the contact. *)
Definition transform (s : service) : service :=
  if premiumOnly s
  then mkService (_id s) (title s) (category s) (rating s) (relevance s)
         sentinel (sourceUrl s) (premiumOnly s) (verified s)
  else s.

(** [if (req.user && req.user.id) { try { ... } catch { log } }] *)
Definition recordSearch (e : env) (user : option caller) (q : str)
    (w : world) : world :=
  match user with
  | Some c =>
      match id c with
      | [] => w
      | _ :: _ =>
          if User_findById_rejects e
          then mkWorld (cacheService w) (users w) (ErrorRecordSearch :: errorLog w)
          else
            match users w !! id c with
            | None => w
            | Some u =>
                if User_save_rejects e
                then mkWorld (cacheService w) (users w)
                       (ErrorRecordSearch :: errorLog w)
                else mkWorld (cacheService w)
                       (<[id c := User.addRecentSearch q (now e) u]> (users w))
                       (errorLog w)
            end
      end
  | None => w
  end.

(** [cacheService.set(cacheKey, result)] *)
Definition cacheResult (e : env) (cacheKey : str) (r : resultSet)
    (w : world) : world :=
  mkWorld (snd (CacheService.set (now e) cacheKey (Some r) None (cacheService w)))
    (users w) (errorLog w).

(** ['Información no disponible'], code unit by code unit. *)
Definition noContactInfo : str :=
  lit "Informaci" ++ ["243"%char] ++ lit "n no disponible".

(** One turn of the loop over [pythonResults.results].  The module
    never binds [mongoose], so evaluating [mongoose.Types.ObjectId] for
    a candidate whose category is a non-empty string raises a
    ReferenceError, which the [catch] of the loop body logs.  The
    document built for a candidate has its title trimmed (the schema of
    the Service model declares [trim: true] for it), and the default
    text for a contact that is missing or empty
    ([result.contactInfo || ...]). *)
Definition ingestOne (e : env) (categoryParam : value)
    (acc : list service * list logEntry) (ir : nat * candidate)
    : list service * list logEntry :=
  let '(i, result) := ir in
  let '(newServices, lg) := acc in
  match r_category result with
  | VStr (_ :: _) => (newServices, ErrorSaveScraped i :: lg)
  | _ =>
      let categoryId := categoryParam in
      match Service_findOne e i result categoryId with
      | None => (newServices, ErrorSaveScraped i :: lg)
      | Some (Some existingService) => (newServices ++ [existingService], lg)
      | Some None =>
          let newService :=
            mkService (Service_newId e i) (trim (r_title result)) categoryId
              (Some (default 0%Q (r_rating result)))
              (Some (default 0%Q (r_relevance result)))
              (match r_contactInfo result with
               | Some ((_ :: _) as contact) => contact
               | _ => noContactInfo
               end)
              (r_sourceUrl result) true false in
          if Service_save e i newService
          then (newServices ++ [newService], lg)
          else (newServices, ErrorSaveScraped i :: lg)
      end
  end.

Fixpoint indexed {A : Type} (i : nat) (l : list A) : list (nat * A) :=
  match l with
  | [] => []
  | x :: r => (i, x) :: indexed (S i) r
  end.

Definition ingest (e : env) (categoryParam : value) (rs : list candidate)
    : list service * list logEntry :=
  fold_left (ingestOne e categoryParam) (indexed 0 rs) ([], []).

(** A [Map] keyed by the identity, in insertion order. *)
Fixpoint mapHas (k : str) (m : list (str * service)) : bool :=
  match m with
  | [] => false
  | (k', _) :: r => bool_decide (k' = k) || mapHas k r
  end.

Fixpoint mapSet (k : str) (x : service) (m : list (str * service))
    : list (str * service) :=
  match m with
  | [] => [(k, x)]
  | (k', y) :: r =>
      if bool_decide (k' = k) then (k, x) :: r else (k', y) :: mapSet k x r
  end.

Definition combine (services newServices : list service)
    : list (str * service) :=
  let locals := fold_left (fun m s => mapSet (_id s) s m) services [] in
  fold_left
    (fun m s => if mapHas (_id s) m then m else mapSet (_id s) s m)
    newServices locals.

(** The comparator of the [sort]: the sign of its result. *)
Definition compareServices (a b : service) : comparison :=
  match relevance a, relevance b with
  | Some ra, Some rb => Qcompare rb ra
  | _, _ =>
      match rating a, rating b with
      | Some ta, Some tb => Qcompare tb ta
      | _, _ => Eq
      end
  end.

Definition combinedServices (services newServices : list service)
    : list service :=
  sort compareServices (map snd (combine services newServices)).

(** The three ways a cache miss ends well: cache the page, record the
    search, answer. *)
Definition finish (e : env) (user : option caller) (cacheKey q : str)
    (d : list service) (pg lm total : nat) (m : message) (w : world)
    : response * world :=
  let transformedServices := map transform d in
  let w1 := cacheResult e cacheKey (mkResultSet transformedServices pg lm total) w in
  let w2 := recordSearch e user q w1 in
  (paginated transformedServices pg lm total m, w2).

Definition logError (l : list logEntry) (w : world) : world :=
  mkWorld (cacheService w) (users w) (l ++ errorLog w).

(** The events of one call that the claims count. *)
Record trace : Type := mkTrace {
  remoteCalls : nat;
  cacheHit : bool
}.

(** The key of line 44: [getSearchKey(query, { category, location,
    price, page, limit })]. *)
Definition searchCacheKey (p : params) : str :=
  getSearchKey (query p)
    [(lit "category", p_category p); (lit "location", p_location p);
     (lit "price", p_price p); (lit "page", VNum (page p));
     (lit "limit", VNum (limit p))].

(** [searchQuery], with [skip] and [limit]. *)
Definition searchQueryOf (user : option caller) (p : params) : storeQuery :=
  let unverified :=
    match user with
    | Some u => negb (caller_verified u)
    | None => true
    end in
  mkStoreQuery (query p) (orUndefined (p_category p))
    (orUndefined (p_location p)) (orUndefined (p_price p))
    unverified ((page p - 1) * limit p) (limit p).

(** [search(req, res)] *)
Definition search (e : env) (req : request) (w : world)
    : response * world * trace :=
  match validate (req_body req) with
  | None => (validationError, w, mkTrace 0 false)
  | Some p =>
      let cacheKey := searchCacheKey p in
      let '(cachedResults, cs) := CacheService.get (now e) cacheKey (cacheService w) in
      let w0 := mkWorld cs (users w) (errorLog w) in
      match cachedResults with
      | Some c =>
          (paginated (rs_data c) (rs_page c) (rs_limit c) (rs_total c) FromCache,
           w0, mkTrace 0 true)
      | None =>
          match Service_find e (searchQueryOf (req_user req) p) with
          | None =>
              (error 500 ProcessingFailed, logError [ErrorSearch] w0,
               mkTrace 0 false)
          | Some (services, total) =>
              if (5 <=? length services) || (10 <=? total) then
                (finish e (req_user req) cacheKey (query p) services
                   (page p) (limit p) total Obtained w0,
                 mkTrace 0 false)
              else
                match customSearch (PythonApi.post (maxRetries e) (transport e)) with
                | None =>
                    (error 500 ProcessingFailed, logError [ErrorSearch] w0,
                     mkTrace 1 false)
                | Some pythonResults =>
                    if success pythonResults
                       && (0 <? length (results pythonResults)) then
                      let '(newServices, lg) :=
                        ingest e (p_category p) (results pythonResults) in
                      let combined := combinedServices services newServices in
                      let startIndex := (page p - 1) * limit p in
                      let endIndex := startIndex + limit p in
                      let paginatedServices := slice startIndex endIndex combined in
                      (finish e (req_user req) cacheKey (query p)
                         paginatedServices (page p) (limit p)
                         (length combined) ObtainedCombined (logError lg w0),
                       mkTrace 1 false)
                    else
                      (finish e (req_user req) cacheKey (query p) services
                         (page p) (limit p) total Obtained w0,
                       mkTrace 1 false)
                end
          end
      end
  end.

End SearchController.

Import SearchController.

(** ** The server as a transition system

    The worlds the process can be in: it starts with an empty cache;
    searches are served; the other controllers invalidate patterns,
    delete keys, clear the cache and update users. *)

Definition responseOf (x : response * world * trace) : response := fst (fst x).
Definition worldOf (x : response * world * trace) : world := snd (fst x).
Definition traceOf (x : response * world * trace) : trace := snd x.

(** The environment with a user store that fails as the flags say. *)
Definition withUserStore (e : env) (findByIdRejects saveRejects : bool) : env :=
  mkEnv (now e) (maxRetries e) (Service_find e) (transport e)
    (Service_findOne e) (Service_newId e) (Service_save e) findByIdRejects
    saveRejects.

(** The environment with another remote service. *)
Definition withRemote (e : env) (mr : nat)
    (tr : nat -> PythonApi.outcome PythonApiService.payload) : env :=
  mkEnv (now e) mr (Service_find e) tr (Service_findOne e) (Service_newId e)
    (Service_save e) (User_findById_rejects e) (User_save_rejects e).

Inductive reachable : world -> Prop :=
| reach_start us : reachable (mkWorld CacheService.empty us [])
| reach_search e req w :
    reachable w -> reachable (worldOf (search e req w))
| reach_invalidate pattern n cs w :
    reachable w ->
    CacheService.invalidatePattern pattern (cacheService w) = Some (n, cs) ->
    reachable (mkWorld cs (users w) (errorLog w))
| reach_delete key w :
    reachable w ->
    reachable
      (mkWorld (snd (CacheService.delete_ key (cacheService w))) (users w)
         (errorLog w))
| reach_clear w :
    reachable w ->
    reachable
      (mkWorld (snd (CacheService.clear (cacheService w))) (users w)
         (errorLog w))
| reach_users us w :
    reachable w -> reachable (mkWorld (cacheService w) us (errorLog w)).

(** The ways [search] ends. *)
Inductive ending (e : env) (req : request) (w : world)
    : response * world * trace -> Prop :=
| EndInvalid :
    validate (req_body req) = None ->
    ending e req w (validationError, w, mkTrace 0 false)
| EndHit p c cs :
    validate (req_body req) = Some p ->
    CacheService.get (now e) (searchCacheKey p) (cacheService w) = (Some c, cs) ->
    ending e req w
      (paginated (rs_data c) (rs_page c) (rs_limit c) (rs_total c) FromCache,
       mkWorld cs (users w) (errorLog w), mkTrace 0 true)
| EndError p cs n :
    validate (req_body req) = Some p ->
    CacheService.get (now e) (searchCacheKey p) (cacheService w) = (None, cs) ->
    ending e req w
      (error 500 ProcessingFailed,
       logError [ErrorSearch] (mkWorld cs (users w) (errorLog w)),
       mkTrace n false)
| EndMiss p cs d total m lg n :
    validate (req_body req) = Some p ->
    CacheService.get (now e) (searchCacheKey p) (cacheService w) = (None, cs) ->
    ending e req w
      (finish e (req_user req) (searchCacheKey p) (query p) d (page p)
         (limit p) total m
         (logError lg (mkWorld cs (users w) (errorLog w))),
       mkTrace n false).

(** ** Definitions that follow the specification *)

(** Specification: the normal form of a query text.  Its words are the
    maximal runs of code units that are not white space. *)
Fixpoint words (s : str) : list str :=
  match s with
  | [] => []
  | c :: r =>
      if isWhiteSpace c then words r
      else
        match r with
        | c' :: _ =>
            if isWhiteSpace c' then [c] :: words r
            else
              match words r with
              | w :: ws => (c :: w) :: ws
              | [] => [[c]]
              end
        | [] => [[c]]
        end
  end.

(** Specification: lower-cased, trimmed, inner white space collapsed to
    single spaces. *)
Definition specNormalForm (q : str) : str :=
  join [" "%char] (words (toLowerCase q)).

(** Specification: a filter map after dropping the null, undefined and
    empty entries, as a finite map (no insertion order). *)
Definition specFilterMap (filters : object) : gmap str value :=
  list_to_map (List.filter retained filters).

Section RetryPolicy.
Context {D : Type}.

(** Specification: the failures a retry is allowed for, and the
    application-level error responses. *)
Definition specRetryable (e : PythonApi.axiosError D) : bool :=
  PythonApi.noResponse e || PythonApi.isECONNABORTED e.

Definition specApplicationError (e : PythonApi.axiosError D) : bool :=
  negb (PythonApi.noResponse e) && negb (PythonApi.isECONNABORTED e).

(** A retry of the trace is allowed, and waited two to the power of its
    number seconds (the delay is kept in milliseconds). *)
Definition retryWellFormed (x : PythonApi.retry D) : Prop :=
  specRetryable (PythonApi.retry_error x) = true
  /\ specApplicationError (PythonApi.retry_error x) = false
  /\ PythonApi.retry_delay x = 2 ^ PythonApi.retry_count x * 1000.

End RetryPolicy.

(** Specification: a premium record shows the sentinel for a contact. *)
Definition specRedacted (s : service) : Prop :=
  premiumOnly s = true -> contactInfo s = sentinel.

(** Every result set in the cache is redacted. *)
Definition cacheRedacted (cs : CacheService.service resultSet) : Prop :=
  forall k en,
    CacheService.cache cs !! k = Some en ->
    Forall specRedacted (rs_data (CacheService.v en)).

(** Specification: the ranking.  Relevance descending, a record with a
    relevance above one without, ties broken by rating descending. *)
Definition ratingNotBelow (a b : service) : bool :=
  match rating a, rating b with
  | Some x, Some y => Qle_bool y x
  | _, _ => true
  end.

Definition specBefore (a b : service) : bool :=
  match relevance a, relevance b with
  | Some ra, Some rb =>
      match Qcompare ra rb with
      | Gt => true
      | Eq => ratingNotBelow a b
      | Lt => false
      end
  | Some _, None => true
  | None, Some _ => false
  | None, None => ratingNotBelow a b
  end.

Fixpoint specRanked (l : list service) : bool :=
  match l with
  | a :: (b :: _) as r => specBefore a b && specRanked r
  | _ => true
  end.

(** The ranking of the code where every record has a relevance. *)
Definition relevanceDescending (a b : service) : Prop :=
  match relevance a, relevance b with
  | Some ra, Some rb => (rb <= ra)%Q
  | _, _ => False
  end.

Definition hasRelevance (s : service) : Prop := relevance s <> None.

(** The new records that enter the merge: those whose identity was not
    seen before, neither among the local records nor earlier in the
    list. *)
Definition known (seen : list str) (k : str) : bool :=
  existsb (fun k' => bool_decide (k' = k)) seen.

Fixpoint firstNew (seen : list str) (news : list service) : list service :=
  match news with
  | [] => []
  | s :: r =>
      if known seen (_id s) then firstNew seen r
      else s :: firstNew (seen ++ [_id s]) r
  end.

Definition keyed (s : service) : str * service := (_id s, s).

(** ** Auxiliary definitions *)

(** [a] may stand before [b] under the comparator [cmp]. *)
Definition notAfter {A : Type} (cmp : A -> A -> comparison) (a b : A) : Prop :=
  cmp a b <> Gt.

Definition isDigit (c : ascii) : bool :=
  (48 <=? nat_of_ascii c) && (nat_of_ascii c <=? 57).

(** A name written in the lower-case letters a to z. *)
Definition lowerName (s : str) : bool :=
  forallb (fun c => (97 <=? nat_of_ascii c) && (nat_of_ascii c <=? 122)) s.

(** The parts of the key of a search around the page and the limit. *)
Definition rendered (name : str) (x : value) (before after : str) : str :=
  if retained (name, x) then before ++ name ++ lit ":" ++ to_string x ++ after
  else [].

Definition keyHead (q : str) (c : value) : str :=
  lit "search:q:" ++ normalizeQuery q ++ lit ":filters:"
    ++ rendered (lit "category") c [] (lit "|") ++ lit "limit:".

Definition keyMiddle (l : value) : str :=
  rendered (lit "location") l [] (lit "|") ++ lit "page:".

Definition keyTail (p : value) : str :=
  rendered (lit "price") p (lit "|") [].

Definition entryIf (b : bool) (name : str) (x : value) : object :=
  if b then [(name, x)] else [].

(** [String.prototype.includes], and the patterns made of a literal. *)
Fixpoint includes (s part : str) : bool :=
  CacheService.startsWith s part
  || match s with
     | _ :: s' => includes s' part
     | [] => false
     end.

Definition plain (c : ascii) : bool :=
  match RegExp.atomOf c with
  | Some (RegExp.Lit _) => true
  | _ => false
  end.

Definition literalPieces (p : str) : list RegExp.piece :=
  map (fun c => (RegExp.Lit c, false)) p.

(** ** Example data *)

Definition plumberA : service :=
  mkService (lit "s1") (lit "Ace Plumbing") (VStr (lit "home"))
    (Some 4.5%Q) (Some 80%Q) (lit "555-0101") None false true.

Definition plumberB : service :=
  mkService (lit "s2") (lit "Best Plumber") (VStr (lit "home"))
    (Some 3%Q) (Some 60%Q) (lit "555-0102") None true true.

Definition timeoutError : PythonApi.axiosError PythonApiService.payload :=
  PythonApi.mkError (Some PythonApi.ECONNABORTED) None true.

Definition emptyAnswer : PythonApi.outcome PythonApiService.payload :=
  PythonApi.Fulfilled (PythonApi.mkResponse 200 (Some [])).

(** A store that finds [found] (and counts [total]) for every query, a
    remote service that settles as [remote], at time [time]. *)
Definition envOf (time : Z) (found : list service) (total : nat)
    (remote : PythonApi.outcome PythonApiService.payload) : env :=
  mkEnv time PythonApi.defaultMaxRetries (fun _ => Some (found, total))
    (fun _ => remote) (fun _ _ _ => Some None) (fun i => lit "new" ++ decimal i)
    (fun _ _ => true) false false.

Definition anonymous (q : string) (location : value) : request :=
  mkRequest (mkBody (lit q) VUndefined location VUndefined None None) None.

Definition signedIn (uid q : string) : request :=
  mkRequest (mkBody (lit q) VUndefined VUndefined VUndefined None None)
    (Some (mkCaller (lit uid) true)).

Definition freshWorld : world := mkWorld CacheService.empty ∅ [].

Definition worldWith (uid : string) : world :=
  mkWorld CacheService.empty {[ lit uid := User.mkUser true [] [] ]} [].

Definition record (i : string) (rel rat : Q) (contact : string) : service :=
  mkService (lit i) (lit "Plumber") (VStr (lit "home")) (Some rat) (Some rel)
    (lit contact) None true false.

Definition twoLocal : list service :=
  [record "a" 70 4 "555-1"; record "b" 40 5 "555-2"].

Definition fiveNew : list service :=
  [record "c" 90 1 "555-3"; record "d" 10 2 "555-4"; record "e" 55 3 "555-5";
   record "f" 70 5 "555-6"; record "g" 30 0 "555-7"].

(** A remote service that answers with five candidates without a
    category, and a store that already holds a record for each. *)
Definition candidateFor (s : service) : PythonApiService.candidate :=
  PythonApiService.mkCandidate (title s) VUndefined (rating s) (relevance s)
    (Some (contactInfo s)) (sourceUrl s).

Definition envMerge : env :=
  mkEnv 1000 PythonApi.defaultMaxRetries (fun _ => Some (twoLocal, 2))
    (fun _ => PythonApi.Fulfilled
                (PythonApi.mkResponse 200 (Some (map candidateFor fiveNew))))
    (fun i _ _ => Some (nth_error fiveNew i)) (fun i => lit "new" ++ decimal i)
    (fun _ _ => true) false false.

(** The same remote answer, every candidate naming its category. *)
Definition namedCandidateFor (s : service) : PythonApiService.candidate :=
  PythonApiService.mkCandidate (title s) (VStr (lit "Plumbing")) (rating s)
    (relevance s) (Some (contactInfo s)) (sourceUrl s).

Definition envNamed : env :=
  mkEnv 1000 PythonApi.defaultMaxRetries (fun _ => Some (twoLocal, 2))
    (fun _ => PythonApi.Fulfilled
                (PythonApi.mkResponse 200 (Some (map namedCandidateFor fiveNew))))
    (fun i _ _ => Some (nth_error fiveNew i)) (fun i => lit "new" ++ decimal i)
    (fun _ _ => true) false false.

(** Two stored pages: a listing of category 42, and the search for the
    text "services:category:42:". *)
Definition listingKey : str := getServicesKey None (Some (lit "42")) 1 20.

Definition searchedKey : str :=
  searchCacheKey
    (mkParams (lit "services:category:42:") VUndefined VUndefined VUndefined
       1 20).

Definition twoPages : CacheService.service nat :=
  snd (CacheService.set 0 searchedKey (Some 2) None
         (snd (CacheService.set 0 listingKey (Some 1) None CacheService.empty))).

(** ** The search history endpoints (src/controllers/searchController.js)

    [getRecentSearches] and [clearRecentSearches] keep the history of a
    caller in the cache store under the user key of the caller.  The
    store is the one the search writes its pages to; it is seen here
    through the entries it holds under user keys, whose values are
    histories (a user key starts with "user:", the key of a search
    with "search:"). *)

Module RecentSearches.

(** What the collaborators answer during one request: the clock, and
    whether the call to the user store rejects. *)
Record env : Type := mkEnv {
  now : Z;
  User_rejects : bool
}.

Record world : Type := mkWorld {
  cacheService : CacheService.service (list User.recentSearch);
  users : gmap str User.user
}.

Inductive message : Type :=
| AuthenticationRequired
| UserNotFound
| FromCache
| Obtained
| Cleared.

(** Responses (src/utils/responseFormatter.js); [resp_data] is [None]
    when the body has no [data]. *)
Record response : Type := mkResponse {
  statusCode : nat;
  resp_success : bool;
  resp_message : message;
  resp_data : option (list User.recentSearch)
}.

Definition success (m : message) (d : option (list User.recentSearch))
    : response :=
  mkResponse 200 true m d.

Definition unauthorized : response :=
  mkResponse 401 false AuthenticationRequired None.

Definition notFound : response := mkResponse 404 false UserNotFound None.

(** [req.user && req.user.id] *)
Definition authenticated (user : option caller) : option str :=
  match user with
  | Some c =>
      match id c with
      | [] => None
      | (_ :: _) as i => Some i
      end
  | None => None
  end.

(** [getRecentSearches(req, res)].  The response is [None] when the
    handler rejects and the error goes to the error middleware. *)
Definition getRecentSearches (e : env) (user : option caller) (w : world)
    : option response * world :=
  match authenticated user with
  | None => (Some unauthorized, w)
  | Some i =>
      let cacheKey := getUserKey i (lit "recent-searches") in
      let '(cachedSearches, cs) :=
        CacheService.get (now e) cacheKey (cacheService w) in
      let w0 := mkWorld cs (users w) in
      match cachedSearches with
      | Some l => (Some (success FromCache (Some l)), w0)
      | None =>
          if User_rejects e then (None, w0)
          else
            match users w !! i with
            | None => (Some notFound, w0)
            | Some user =>
                let cs1 :=
                  snd (CacheService.set (now e) cacheKey
                         (Some (User.recentSearches user)) (Some 60) cs) in
                (Some (success Obtained (Some (User.recentSearches user))),
                 mkWorld cs1 (users w))
            end
      end
  end.

(** [clearRecentSearches(req, res)] *)
Definition clearRecentSearches (e : env) (user : option caller) (w : world)
    : option response * world :=
  match authenticated user with
  | None => (Some unauthorized, w)
  | Some i =>
      if User_rejects e then (None, w)
      else
        match users w !! i with
        | None => (Some notFound, w)
        | Some user =>
            let updated :=
              User.mkUser (User.verified user) (User.paidServices user) [] in
            let cs :=
              snd (CacheService.delete_ (getUserKey i (lit "recent-searches"))
                     (cacheService w)) in
            (Some (success Cleared None), mkWorld cs (<[i := updated]> (users w)))
        end
  end.

End RecentSearches.

(** ** The remote search service, over the bodies as they arrive

    [PythonApiService.customSearch] above takes answers whose body is
    an object.  Here the body is what axios hands over: [null], or a
    value whose [results] property can be read. *)

Module RawPythonApiService.

Inductive body : Type :=
| BodyNull
| BodyObject (results : PythonApiService.payload).

(** [customSearch(query, userId)], given what the HTTP call settles to;
    [None]: the method throws.  Reading [results] of a [null] body is a
    TypeError inside the [try], which the [catch] rethrows as every
    other error. *)
Definition customSearch (settled : PythonApi.outcome body)
    : option PythonApiService.searchResult :=
  match settled with
  | PythonApi.Fulfilled r =>
      if PythonApi.status r =? 200
      then
        match PythonApi.data r with
        | BodyNull => None
        | BodyObject results =>
            Some (PythonApiService.mkSearchResult true (default [] results))
        end
      else None
  | PythonApi.Rejected _ => None
  end.

(** An answer with an object for a body, as an answer with a body. *)
Definition ofObject (r : PythonApi.response PythonApiService.payload)
    : PythonApi.response body :=
  PythonApi.mkResponse (PythonApi.status r) (BodyObject (PythonApi.data r)).

Definition withObjectBody (settled : PythonApi.outcome PythonApiService.payload)
    : PythonApi.outcome body :=
  match settled with
  | PythonApi.Fulfilled r => PythonApi.Fulfilled (ofObject r)
  | PythonApi.Rejected e =>
      PythonApi.Rejected
        (PythonApi.mkError (PythonApi.code e)
           (option_map ofObject (PythonApi.error_response e))
           (PythonApi.error_config e))
  end.

End RawPythonApiService.

(** ** Pattern invalidation, whatever the regular expression

    Lines 116 to 132 of [invalidatePattern] read the regular expression
    through [regex.test(key)] only, once for every key of the store, and
    an expression without the g and y flags answers by the key alone.
    [invalidateMatching] is these lines with that answer as a function;
    [CacheService.invalidatePattern] is the instance for the expressions
    of the embedded fragment (lemma [invalidatePattern_matching]). *)

Definition invalidateMatching {V : Type} (test : str -> bool)
    (s : CacheService.service V) : nat * CacheService.service V :=
  let matchingKeys :=
    List.filter test (CacheService.keys (CacheService.cache s)) in
  let '(deletedCount, data) :=
    fold_left
      (fun acc key => (S (fst acc), snd (CacheService.nodeDel key (snd acc))))
      matchingKeys (0, CacheService.cache s) in
  (deletedCount, CacheService.mkService data (CacheService.stats s)).

(** ** Further auxiliary definitions *)

(** The lifetime [set] gives an entry, in seconds: the argument when it
    is a positive number, the default of the namespace otherwise. *)
Definition lifetimeOf (key : str) (ttl : option nat) : nat :=
  match ttl with
  | Some ((S _) as n) => n
  | _ => CacheService.getCacheTTLForKey key
  end.

(** What a record the loop over the candidates keeps is: one the store
    found for the candidate, or one built for it and saved. *)
Definition foundFor (e : env) (categoryParam : value) (i : nat)
    (c : PythonApiService.candidate) (s : service) : Prop :=
  Service_findOne e i c categoryParam = Some (Some s).

Definition builtFor (e : env) (categoryParam : value) (i : nat)
    (c : PythonApiService.candidate) (s : service) : Prop :=
  Service_findOne e i c categoryParam = Some None
  /\ Service_save e i s = true
  /\ _id s = Service_newId e i
  /\ title s = trim (PythonApiService.r_title c)
  /\ category s = categoryParam
  /\ premiumOnly s = true
  /\ verified s = false
  /\ rating s = Some (default 0%Q (PythonApiService.r_rating c))
  /\ relevance s = Some (default 0%Q (PythonApiService.r_relevance c))
  /\ contactInfo s <> []
  /\ (forall contact, PythonApiService.r_contactInfo c = Some contact ->
      contact <> [] -> contactInfo s = contact)
  /\ sourceUrl s = PythonApiService.r_sourceUrl c.

(** A candidate that names its category. *)
Definition namesCategory (c : PythonApiService.candidate) : Prop :=
  exists s, PythonApiService.r_category c = VStr s /\ s <> [].

(** A map of records under their own identities, each identity once. *)
Definition keyedOnce (m : list (str * service)) : Prop :=
  List.NoDup (map fst m) /\ Forall (fun kv => fst kv = _id (snd kv)) m.

(** ** Further example data *)

(** A store that rejects every query. *)
Definition envStoreDown : env :=
  mkEnv 1000 PythonApi.defaultMaxRetries (fun _ => None) (fun _ => emptyAnswer)
    (fun _ _ _ => Some None) (fun i => lit "new" ++ decimal i)
    (fun _ _ => true) false false.

(** A store that shows the premium record to verified callers only. *)
Definition envTiered : env :=
  mkEnv 1000 PythonApi.defaultMaxRetries
    (fun q => if q_nonPremiumOnly q then Some ([plumberA], 12)
              else Some ([plumberA; plumberB], 12))
    (fun _ => emptyAnswer) (fun _ _ _ => Some None)
    (fun i => lit "new" ++ decimal i) (fun _ _ => true) false false.

(** The store has the two local matches and none of the candidates;
    the remote service answers with five candidates that name no
    category; the request names a category, so that the records built
    for the candidates can be saved. *)
Definition envFresh : env :=
  mkEnv 1000 PythonApi.defaultMaxRetries (fun _ => Some (twoLocal, 2))
    (fun _ => PythonApi.Fulfilled
                (PythonApi.mkResponse 200 (Some (map candidateFor fiveNew))))
    (fun _ _ _ => Some None) (fun i => lit "new" ++ decimal i)
    (fun _ _ => true) false false.

Definition inCategory : request :=
  mkRequest
    (mkBody (lit "plumber") (VStr (lit "64b7f0c2a1b2c3d4e5f60718")) VUndefined
       VUndefined None None)
    None.

(** A store with seven matches that shows the last two on the second
    page of five, and a remote service with three candidates. *)
Definition envSecondPage : env :=
  mkEnv 1000 PythonApi.defaultMaxRetries (fun _ => Some (twoLocal, 7))
    (fun _ => PythonApi.Fulfilled
                (PythonApi.mkResponse 200 (Some (map candidateFor (firstn 3 fiveNew)))))
    (fun i _ _ => Some (nth_error fiveNew i)) (fun i => lit "new" ++ decimal i)
    (fun _ _ => true) false false.

Definition secondPageOfFive : request :=
  mkRequest
    (mkBody (lit "plumber") VUndefined VUndefined VUndefined (Some 2) (Some 5))
    None.

(** * Facts about the JavaScript primitives *)

Section SortFacts.
Context {A : Type} (cmp : A -> A -> comparison) (P : A -> Prop).

Hypothesis cmp_flip :
  forall a b, P a -> P b -> cmp a b = Gt -> cmp b a <> Gt.
Hypothesis cmp_trans :
  forall a b c, P a -> P b -> P c ->
    cmp a b <> Gt -> cmp b c <> Gt -> cmp a c <> Gt.

Lemma insert_Permutation (x : A) (l : list A) :
  Permutation (insert cmp x l) (x :: l).
Proof.
  induction l as [|y r IH]; simpl; [reflexivity|].
  destruct (cmp x y); try reflexivity.
  rewrite IH. apply perm_swap.
Qed.

Lemma sort_Permutation (l : list A) : Permutation (sort cmp l) l.
Proof.
  induction l as [|x r IH]; simpl; [reflexivity|].
  rewrite insert_Permutation. now constructor.
Qed.

Lemma sort_length (l : list A) : length (sort cmp l) = length l.
Proof. apply Permutation_length, sort_Permutation. Qed.

Lemma insert_sorted (x : A) (l : list A) :
  P x -> Forall P l -> StronglySorted (notAfter cmp) l ->
  StronglySorted (notAfter cmp) (insert cmp x l).
Proof.
  intros Px Pl Hs. induction Hs as [|y r Hr IH Hy]; simpl.
  - repeat constructor.
  - inversion Pl as [|? ? Py Pr]; subst.
    destruct (cmp x y) eqn:E.
    + constructor; [now constructor|]. constructor; [unfold notAfter; congruence|].
      rewrite List.Forall_forall in *. intros z Hz.
      apply (cmp_trans x y z); auto; [congruence | now apply Hy].
    + constructor; [now constructor|]. constructor; [unfold notAfter; congruence|].
      rewrite List.Forall_forall in *. intros z Hz.
      apply (cmp_trans x y z); auto; [congruence | now apply Hy].
    + constructor; [auto|].
      eapply Permutation_Forall; [symmetry; apply insert_Permutation|].
      constructor; [|exact Hy]. now apply cmp_flip.
Qed.

Lemma sort_sorted (l : list A) :
  Forall P l -> StronglySorted (notAfter cmp) (sort cmp l).
Proof.
  induction 1 as [|x r Px Pr IH]; simpl; [constructor|].
  apply insert_sorted; auto.
  eapply Permutation_Forall; [symmetry; apply sort_Permutation|exact Pr].
Qed.

End SortFacts.

(** ** [localeCompare] is a total preorder, strict on lower-case names *)

Lemma nat_of_ascii_inj (x y : ascii) : nat_of_ascii x = nat_of_ascii y -> x = y.
Proof.
  intros H. rewrite <- (ascii_nat_embedding x), <- (ascii_nat_embedding y).
  now rewrite H.
Qed.

Lemma compareWeights_eq (a b : list nat) : compareWeights a b = Eq -> a = b.
Proof.
  revert b. induction a as [|x a IH]; intros [|y b]; simpl; try discriminate.
  - reflexivity.
  - destruct (Nat.compare_spec x y) as [E|E|E]; try discriminate.
    intros H. f_equal; [exact E | now apply IH].
Qed.

Lemma compareWeights_refl (a : list nat) : compareWeights a a = Eq.
Proof. induction a as [|x a IH]; simpl; [reflexivity|]. now rewrite Nat.compare_refl. Qed.

Lemma compareWeights_flip (a b : list nat) :
  compareWeights b a = CompOpp (compareWeights a b).
Proof.
  revert b. induction a as [|x a IH]; intros [|y b]; simpl; try reflexivity.
  rewrite (Nat.compare_antisym x y).
  destruct (x ?= y); simpl; auto.
Qed.

Lemma compareWeights_trans (a b c : list nat) :
  compareWeights a b <> Gt -> compareWeights b c <> Gt -> compareWeights a c <> Gt.
Proof.
  revert b c. induction a as [|x a IH]; intros [|y b] [|z c]; simpl;
    try congruence.
  destruct (Nat.compare_spec x y) as [E|E|E];
    destruct (Nat.compare_spec y z) as [F|F|F];
    destruct (Nat.compare_spec x z) as [G|G|G];
    try congruence; try lia.
  apply IH.
Qed.

Lemma localeCompare_flip (a b : str) :
  localeCompare b a = CompOpp (localeCompare a b).
Proof.
  unfold localeCompare.
  rewrite (compareWeights_flip (map primaryWeight (collated a))),
    (compareWeights_flip (map caseWeight (collated a))).
  destruct (compareWeights (map primaryWeight (collated a)) _); reflexivity.
Qed.

Lemma localeCompare_trans (a b c : str) :
  localeCompare a b <> Gt -> localeCompare b c <> Gt -> localeCompare a c <> Gt.
Proof.
  unfold localeCompare.
  set (pa := map primaryWeight (collated a)).
  set (pb := map primaryWeight (collated b)).
  set (pc := map primaryWeight (collated c)).
  pose proof (compareWeights_trans pa pb pc) as Ht.
  pose proof (compareWeights_flip pb pc) as Hf.
  destruct (compareWeights pa pb) eqn:E1; [| |congruence];
    destruct (compareWeights pb pc) eqn:E2; try congruence.
  - apply compareWeights_eq in E1, E2. rewrite E1, E2, compareWeights_refl.
    apply compareWeights_trans.
  - apply compareWeights_eq in E1. rewrite E1, E2. congruence.
  - apply compareWeights_eq in E2. rewrite <- E2, E1. congruence.
  - intros _ _. destruct (compareWeights pa pc) eqn:E3; try congruence.
    + apply compareWeights_eq in E3. rewrite <- E3 in Hf, E2.
      rewrite E1 in Hf. simpl in Hf. congruence.
    + exfalso. apply Ht; congruence.
Qed.

Lemma collated_lowerName (s : str) : lowerName s = true -> collated s = s.
Proof.
  induction s as [|c s IH]; [reflexivity|].
  cbn [lowerName forallb collated List.filter]. intros H.
  apply andb_prop in H as [Hc Hs]. fold (collated s). rewrite (IH Hs).
  apply andb_prop in Hc as [H1 H2]. apply Nat.leb_le in H1, H2.
  unfold isIgnorable.
  replace (nat_of_ascii c <=? 8) with false by (symmetry; apply Nat.leb_gt; lia).
  replace (nat_of_ascii c <=? 31) with false by (symmetry; apply Nat.leb_gt; lia).
  replace (nat_of_ascii c =? 127) with false by (symmetry; apply Nat.eqb_neq; lia).
  now rewrite andb_false_r.
Qed.

Lemma primaryWeight_lowerName (s : str) :
  lowerName s = true -> map primaryWeight s = map nat_of_ascii s.
Proof.
  induction s as [|c s IH]; [reflexivity|].
  cbn [lowerName forallb map]. intros H.
  apply andb_prop in H as [Hc Hs]. rewrite (IH Hs). f_equal.
  apply andb_prop in Hc as [H1 H2]. apply Nat.leb_le in H1, H2.
  unfold primaryWeight, isCapital.
  replace (nat_of_ascii c <=? 90) with false by (symmetry; apply Nat.leb_gt; lia).
  now rewrite andb_false_r.
Qed.

Lemma map_nat_of_ascii_inj (a b : str) :
  map nat_of_ascii a = map nat_of_ascii b -> a = b.
Proof.
  revert b. induction a as [|x a IH]; intros [|y b]; simpl; try discriminate.
  - reflexivity.
  - intros H. inversion H. f_equal; [now apply nat_of_ascii_inj | now apply IH].
Qed.

(** Two names of lower-case letters that compare as equal are the same
    name. *)
Lemma localeCompare_eq (a b : str) :
  lowerName a = true -> lowerName b = true ->
  localeCompare a b = Eq -> a = b.
Proof.
  intros Ha Hb. unfold localeCompare.
  rewrite (collated_lowerName a Ha), (collated_lowerName b Hb),
    (primaryWeight_lowerName a Ha), (primaryWeight_lowerName b Hb).
  destruct (compareWeights (map nat_of_ascii a) (map nat_of_ascii b)) eqn:E;
    try discriminate.
  intros _. apply compareWeights_eq in E. now apply map_nat_of_ascii_inj.
Qed.

(** ** Sorting the entries of an object by name *)

Lemma compareNames_flip (a b : str * value) :
  compareNames a b = Gt -> compareNames b a <> Gt.
Proof.
  unfold compareNames. rewrite (localeCompare_flip (fst a) (fst b)).
  intros ->. discriminate.
Qed.

Lemma sortNames_sorted (l : list (str * value)) :
  StronglySorted (notAfter compareNames) (sort compareNames l).
Proof.
  apply (sort_sorted compareNames (fun _ => True)).
  - intros a b _ _. apply compareNames_flip.
  - intros a b c _ _ _. apply localeCompare_trans.
  - now apply List.Forall_forall.
Qed.

(** Two lists of entries with the same members, no name twice, the
    names in lower-case letters, both in the order of the names, are the
    same list. *)
Lemma sortedNames_unique (l1 l2 : list (str * value)) :
  List.NoDup (map fst l1) ->
  Forall (fun e => lowerName (fst e) = true) l1 ->
  Permutation l1 l2 ->
  StronglySorted (notAfter compareNames) l1 ->
  StronglySorted (notAfter compareNames) l2 ->
  l1 = l2.
Proof.
  revert l2. induction l1 as [|x l1 IH]; intros l2 Hnd Hlow Hp H1 H2.
  - now apply Permutation_nil in Hp.
  - destruct l2 as [|y l2]; [now apply Permutation_sym, Permutation_nil in Hp|].
    assert (Hlow2 : Forall (fun e => lowerName (fst e) = true) (y :: l2))
      by (eapply Permutation_Forall; [exact Hp|exact Hlow]).
    assert (x = y) as <-.
    { inversion H1 as [|? ? _ Hx]; inversion H2 as [|? ? _ Hy]; subst.
      rewrite List.Forall_forall in Hx, Hy.
      assert (Hin : In x (y :: l2)) by (eapply Permutation_in; [exact Hp|now left]).
      assert (Hin' : In y (x :: l1))
        by (eapply Permutation_in; [symmetry; exact Hp|now left]).
      destruct Hin as [->|Hin]; [reflexivity|].
      destruct Hin' as [->|Hin']; [reflexivity|].
      specialize (Hx _ Hin'). specialize (Hy _ Hin).
      unfold notAfter, compareNames in Hx, Hy.
      assert (Hn : fst x = fst y).
      { apply localeCompare_eq.
        - now inversion Hlow.
        - now inversion Hlow2.
        - rewrite (localeCompare_flip (fst x) (fst y)) in Hy.
          destruct (localeCompare (fst x) (fst y)); simpl in *; congruence. }
      inversion Hnd as [|? ? Hnotin _]; subst.
      exfalso. apply Hnotin. rewrite Hn. now apply in_map. }
    f_equal. apply IH.
    + now inversion Hnd.
    + now inversion Hlow.
    + now apply Permutation_cons_inv in Hp.
    + now inversion H1.
    + now inversion H2.
Qed.

Lemma sortNames_Permutation_eq (l1 l2 : list (str * value)) :
  List.NoDup (map fst l1) ->
  Forall (fun e => lowerName (fst e) = true) l1 ->
  Permutation l1 l2 ->
  sort compareNames l1 = sort compareNames l2.
Proof.
  intros Hnd Hlow Hp. apply sortedNames_unique.
  - eapply Permutation_NoDup; [|exact Hnd].
    apply Permutation_map. symmetry. apply sort_Permutation.
  - eapply Permutation_Forall; [symmetry; apply sort_Permutation|exact Hlow].
  - rewrite (sort_Permutation compareNames l1), (sort_Permutation compareNames l2).
    exact Hp.
  - apply sortNames_sorted.
  - apply sortNames_sorted.
Qed.

(** ** Trimming and collapsing white space *)

Lemma trimStart_all (l : str) :
  forallb isWhiteSpace l = true -> trimStart l = [].
Proof.
  induction l as [|c l IH]; simpl; [reflexivity|].
  destruct (isWhiteSpace c); simpl; [exact IH | discriminate].
Qed.

Lemma trimStart_app (a b : str) :
  trimStart (a ++ b)
  = if forallb isWhiteSpace a then trimStart b else trimStart a ++ b.
Proof.
  induction a as [|c a IH]; simpl; [reflexivity|].
  destruct (isWhiteSpace c); simpl; [exact IH | reflexivity].
Qed.

Lemma forallb_rev {A : Type} (f : A -> bool) (l : list A) :
  forallb f (rev l) = forallb f l.
Proof.
  induction l as [|x l IH]; simpl; [reflexivity|].
  rewrite forallb_app, IH. simpl. rewrite andb_true_r. apply andb_comm.
Qed.

Lemma trimEnd_cons (c : ascii) (r : str) :
  trimEnd (c :: r)
  = if isWhiteSpace c && forallb isWhiteSpace r then [] else c :: trimEnd r.
Proof.
  unfold trimEnd. simpl rev. rewrite trimStart_app, forallb_rev.
  destruct (forallb isWhiteSpace r) eqn:E.
  - rewrite (trimStart_all (rev r)) by now rewrite forallb_rev.
    simpl. destruct (isWhiteSpace c); reflexivity.
  - rewrite andb_false_r, rev_app_distr. reflexivity.
Qed.

Lemma words_all (s : str) : forallb isWhiteSpace s = true -> words s = [].
Proof.
  induction s as [|c s IH]; simpl; [reflexivity|].
  destruct (isWhiteSpace c); simpl; [exact IH | discriminate].
Qed.

Lemma words_not_all (s : str) :
  forallb isWhiteSpace s = false -> words s <> [].
Proof.
  induction s as [|c s IH]; simpl; [discriminate|].
  destruct (isWhiteSpace c); simpl; [exact IH|].
  intros _. destruct s as [|c' s']; [discriminate|].
  destruct (isWhiteSpace c'); [discriminate|].
  destruct (words (c' :: s')); discriminate.
Qed.

Lemma words_trimStart (s : str) : words (trimStart s) = words s.
Proof.
  induction s as [|c s IH]; [reflexivity|].
  simpl trimStart. destruct (isWhiteSpace c) eqn:E; [|reflexivity].
  rewrite IH. simpl. now rewrite E.
Qed.

Lemma join_cons_char (sep : str) (c : ascii) (w : str) (ws : list str) :
  join sep ((c :: w) :: ws) = c :: join sep (w :: ws).
Proof. destruct ws; reflexivity. Qed.

(** The scan over a trimmed text, in both of its states. *)
Lemma collapse_trimEnd (s : str) :
  collapseFrom true (trimEnd s) = join [" "%char] (words s)
  /\ collapseFrom false (trimEnd s)
     = match s with
       | c :: _ =>
           if isWhiteSpace c
           then match words s with
                | [] => []
                | ws => " "%char :: join [" "%char] ws
                end
           else join [" "%char] (words s)
       | [] => []
       end.
Proof.
  induction s as [|c r [IHt IHf]]; [split; reflexivity|].
  rewrite trimEnd_cons.
  destruct (isWhiteSpace c) eqn:Ec; simpl andb.
  - destruct (forallb isWhiteSpace r) eqn:Er.
    + assert (Hw : words (c :: r) = []) by (apply words_all; simpl; now rewrite Ec).
      rewrite Hw. split; reflexivity.
    + assert (Hw : words (c :: r) = words r) by (simpl; now rewrite Ec).
      rewrite Hw. simpl collapseFrom. rewrite Ec, IHt.
      split; [reflexivity|].
      destruct (words r) eqn:E; [|reflexivity].
      now apply words_not_all in Er.
  - assert (Hc : forall b, collapseFrom b (c :: trimEnd r)
                          = join [" "%char] (words (c :: r))).
    { intros b. simpl collapseFrom. rewrite Ec, IHf.
      simpl words. rewrite Ec.
      destruct r as [|c' r']; [reflexivity|].
      destruct (isWhiteSpace c') eqn:Ec'.
      - destruct (words (c' :: r')) eqn:Ew; reflexivity.
      - destruct (words (c' :: r')) eqn:Ew.
        + exfalso. apply (words_not_all (c' :: r')); [|exact Ew].
          simpl. now rewrite Ec'.
        + now rewrite join_cons_char. }
    split; apply Hc.
Qed.

Lemma trimStart_head (s : str) :
  match trimStart s with
  | c :: _ => isWhiteSpace c = false
  | [] => True
  end.
Proof.
  induction s as [|c s IH]; simpl; [exact I|].
  destruct (isWhiteSpace c) eqn:E; [exact IH | exact E].
Qed.

(** The normalisation of the code is the normal form of the
    specification: the lower-cased words, single spaces between. *)
Lemma normalizeQuery_normalForm (q : str) : normalizeQuery q = specNormalForm q.
Proof.
  unfold normalizeQuery, specNormalForm, replaceWhiteSpaceRuns, trim.
  destruct (collapse_trimEnd (trimStart (toLowerCase q))) as [_ H].
  rewrite H. pose proof (trimStart_head (toLowerCase q)) as Hh.
  rewrite <- (words_trimStart (toLowerCase q)).
  destruct (trimStart (toLowerCase q)) as [|c r]; [reflexivity|].
  now rewrite Hh.
Qed.

Lemma NoDup_filter_names (f : object) :
  List.NoDup (map fst f) -> List.NoDup (map fst (List.filter retained f)).
Proof.
  induction f as [|e f IH]; simpl; [auto|].
  intros H. inversion H as [|? ? Hn Hd]; subst.
  destruct (retained e); simpl; [|auto].
  constructor; [|auto].
  intros Hin. apply Hn. apply in_map_iff in Hin as (x & Hx & Hin).
  apply in_map_iff. exists x. split; [exact Hx|].
  now apply List.filter_In in Hin.
Qed.

(** Where every name of the filter object is written in lower-case
    letters (as the five names of the controller are): two query texts
    with the same normal form and two filter objects that hold the same
    entries once the null, undefined and empty ones are dropped,
    whatever the order their names were inserted in, get the same
    search key, code unit for code unit. *)
Lemma search_key_canonical (q1 q2 : str) (f1 f2 : object) :
  List.NoDup (map fst f1) -> List.NoDup (map fst f2) ->
  Forall (fun e => lowerName (fst e) = true) f1 ->
  specNormalForm q1 = specNormalForm q2 ->
  specFilterMap f1 = specFilterMap f2 ->
  getSearchKey q1 f1 = getSearchKey q2 f2.
Proof.
  intros Hd1 Hd2 Hlow Hq Hf. unfold getSearchKey, filtersStr.
  rewrite !normalizeQuery_normalForm, Hq.
  assert (Hp : Permutation (List.filter retained f1) (List.filter retained f2)).
  { apply (list_to_map_inj (M := gmap str)); [| |exact Hf];
      apply NoDup_ListNoDup, NoDup_filter_names; assumption. }
  assert (Hl : Forall (fun e => lowerName (fst e) = true) (List.filter retained f1)).
  { rewrite List.Forall_forall in *. intros e He. apply Hlow.
    now apply List.filter_In in He. }
  rewrite (sortNames_Permutation_eq _ _ (NoDup_filter_names f1 Hd1) Hl Hp).
  reflexivity.
Qed.

(** The lemma at a query with capitals and spare blanks and a filter
    object in another order, with an entry that is dropped. *)
Example canonical_key_of_a_reordered_object :
  getSearchKey (lit "  Plumber   NYC ")
    [(lit "price", VStr (lit "$$")); (lit "location", VNull);
     (lit "category", VStr (lit "home")); (lit "page", VNum 2)]
  = getSearchKey (lit "plumber nyc")
      [(lit "page", VNum 2); (lit "category", VStr (lit "home"));
       (lit "verified", VStr []); (lit "price", VStr (lit "$$"))].
Proof.
  apply search_key_canonical.
  - apply NoDup_ListNoDup, (bool_decide_unpack _). vm_compute. exact I.
  - apply NoDup_ListNoDup, (bool_decide_unpack _). vm_compute. exact I.
  - repeat constructor.
  - vm_compute. reflexivity.
  - vm_compute. reflexivity.
Qed.

(** Claim C5 fails on the code.  The entries are sorted with
    [localeCompare], which compares two names that differ in an ignored
    control character as equal; the stable sort then leaves such
    entries in the order of insertion.  The filter objects
    {"a\u0001": "x", "a": "y"} and {"a": "y", "a\u0001": "x"} hold the
    same two entries under two distinct names, and get two keys. *)
Theorem equal_filter_maps_get_two_keys :
  let marked := lit "a" ++ ["001"%char] in
  let f1 := [(marked, VStr (lit "x")); (lit "a", VStr (lit "y"))] in
  let f2 := [(lit "a", VStr (lit "y")); (marked, VStr (lit "x"))] in
  marked <> lit "a"
  /\ specFilterMap f1 = specFilterMap f2
  /\ localeCompare marked (lit "a") = Eq
  /\ getSearchKey (lit "plumber") f1
     = lit "search:q:plumber:filters:a" ++ ["001"%char] ++ lit ":x|a:y"
  /\ getSearchKey (lit "plumber") f2
     = lit "search:q:plumber:filters:a:y|a" ++ ["001"%char] ++ lit ":x"
  /\ getSearchKey (lit "plumber") f1 <> getSearchKey (lit "plumber") f2.
Proof. vm_compute. repeat split; congruence. Qed.

(** ** Decimal numerals *)

Lemma string_of_uint_digits (d : Decimal.uint) :
  forallb isDigit (lit (NilEmpty.string_of_uint d)) = true.
Proof. induction d; simpl; auto. Qed.

Lemma decimal_digits (n : nat) : forallb isDigit (decimal n) = true.
Proof. apply string_of_uint_digits. Qed.

Lemma lit_inj (s1 s2 : string) : lit s1 = lit s2 -> s1 = s2.
Proof.
  intros H. apply (f_equal string_of_list_ascii) in H.
  unfold lit in H. now rewrite !string_of_list_ascii_of_string in H.
Qed.

Lemma decimal_inj (n m : nat) : decimal n = decimal m -> n = m.
Proof.
  intros H. apply lit_inj in H. apply DecimalNat.Unsigned.to_uint_inj.
  assert (Hs : Some (Nat.to_uint n) = Some (Nat.to_uint m))
    by (rewrite <- !NilEmpty.usu; now rewrite H).
  now inversion Hs.
Qed.

(** A numeral ends at the first bar. *)
Lemma digits_bar (d1 d2 r1 r2 : str) :
  forallb isDigit d1 = true -> forallb isDigit d2 = true ->
  d1 ++ "|"%char :: r1 = d2 ++ "|"%char :: r2 -> d1 = d2 /\ r1 = r2.
Proof.
  revert d2. induction d1 as [|x d1 IH]; intros [|y d2]; simpl; intros H1 H2 E.
  - now inversion E.
  - inversion E; subst. discriminate.
  - inversion E; subst. discriminate.
  - apply andb_prop in H1 as [_ H1]. apply andb_prop in H2 as [_ H2].
    inversion E; subst.
    destruct (IH d2 H1 H2) as [-> ->]; auto.
Qed.

(** ** The shape of the key of a search *)

Lemma sort_controller_entries (bc bl bp : bool) (c l p pg lm : value) :
  sort compareNames
    (entryIf bc (lit "category") c ++ entryIf bl (lit "location") l
       ++ entryIf bp (lit "price") p ++ [(lit "page", pg); (lit "limit", lm)])
  = entryIf bc (lit "category") c ++ [(lit "limit", lm)]
      ++ entryIf bl (lit "location") l ++ [(lit "page", pg)]
      ++ entryIf bp (lit "price") p.
Proof. destruct bc, bl, bp; vm_compute; reflexivity. Qed.

Lemma filter_controller_entries (c l p : value) (pg lm : nat) :
  List.filter retained
    [(lit "category", c); (lit "location", l); (lit "price", p);
     (lit "page", VNum pg); (lit "limit", VNum lm)]
  = entryIf (retained (lit "category", c)) (lit "category") c
      ++ entryIf (retained (lit "location", l)) (lit "location") l
      ++ entryIf (retained (lit "price", p)) (lit "price") p
      ++ [(lit "page", VNum pg); (lit "limit", VNum lm)].
Proof.
  cbn [List.filter].
  change (retained (lit "page", VNum pg)) with true.
  change (retained (lit "limit", VNum lm)) with true.
  destruct (retained (lit "category", c)), (retained (lit "location", l)),
    (retained (lit "price", p)); reflexivity.
Qed.

Lemma searchCacheKey_shape (p : params) :
  searchCacheKey p
  = keyHead (query p) (p_category p) ++ decimal (limit p) ++ lit "|"
      ++ keyMiddle (p_location p) ++ decimal (page p) ++ keyTail (p_price p).
Proof.
  unfold searchCacheKey, getSearchKey, filtersStr, keyHead, keyMiddle,
    keyTail, rendered.
  rewrite filter_controller_entries, sort_controller_entries.
  destruct (retained (lit "category", p_category p));
    destruct (retained (lit "location", p_location p));
    destruct (retained (lit "price", p_price p));
    cbn -[decimal normalizeQuery to_string];
    repeat (rewrite <- !List.app_assoc; cbn -[decimal normalizeQuery to_string]);
    rewrite ?List.app_nil_r; reflexivity.
Qed.

(** With the query and the three filters fixed, the key determines the
    page and the limit. *)
Lemma searchCacheKey_page_limit (p1 p2 : params) :
  query p1 = query p2 ->
  p_category p1 = p_category p2 ->
  p_location p1 = p_location p2 ->
  p_price p1 = p_price p2 ->
  searchCacheKey p1 = searchCacheKey p2 ->
  page p1 = page p2 /\ limit p1 = limit p2.
Proof.
  intros Hq Hc Hl Hp E.
  rewrite !searchCacheKey_shape, Hq, Hc, Hl, Hp in E.
  apply List.app_inv_head in E.
  apply digits_bar in E as [El E]; try apply decimal_digits.
  apply List.app_inv_head in E. apply List.app_inv_tail in E.
  apply decimal_inj in El. apply decimal_inj in E. auto.
Qed.

(** * The remote client *)

Section ClientFacts.
Context {D : Type}.
Import PythonApi.

Lemma shouldRetry_inv (mr : nat) (e : axiosError D) (cfg : requestConfig) :
  shouldRetry mr e cfg = true ->
  specRetryable e = true /\ _retry cfg = false
  /\ exists c, _retryCount cfg = Some c /\ c < mr.
Proof.
  unfold shouldRetry, specRetryable. intros H.
  apply andb_prop in H as [H Hc]. apply andb_prop in H as [H Hr].
  apply andb_prop in H as [H _].
  split; [now rewrite orb_comm|]. split; [now destruct (_retry cfg)|].
  destruct (_retryCount cfg) as [c|]; [|discriminate].
  exists c. split; [reflexivity|]. now apply Nat.ltb_lt.
Qed.

(** Once the flag is set, a request is sent once. *)
Lemma request_flagged (fuel mr : nat) (tr : nat -> outcome D) (n : nat)
    (cfg : requestConfig) :
  _retry cfg = true ->
  request (S fuel) mr tr n cfg = Some (mkRun (tr n) 1 [] 0).
Proof.
  intros Hf. simpl. destruct (tr n) as [r|e]; [reflexivity|].
  unfold shouldRetry. rewrite Hf, andb_false_r. reflexivity.
Qed.

Lemma request_total (fuel mr : nat) (tr : nat -> outcome D) (n : nat)
    (cfg : requestConfig) :
  2 <= fuel \/ (1 <= fuel /\ mr = 0) ->
  exists r,
    request fuel mr tr n cfg = Some r
    /\ attempts r = S (length (retries r))
    /\ flagsSet r = length (retries r)
    /\ length (retries r) <= 1
    /\ Forall retryWellFormed (retries r).
Proof.
  intros Hfuel. destruct fuel as [|fuel]; [lia|]. simpl.
  destruct (tr n) as [r|e]; [eexists; repeat split; simpl; auto|].
  destruct (shouldRetry mr e cfg) eqn:Hs;
    [|eexists; repeat split; simpl; auto].
  apply shouldRetry_inv in Hs as (Ht & Hr & c & Hc & Hlt).
  destruct fuel as [|fuel]; [lia|].
  rewrite request_flagged by reflexivity.
  eexists. split; [reflexivity|]. simpl. repeat split; auto.
  constructor; [|constructor].
  unfold retryWellFormed, specApplicationError. simpl.
  unfold specRetryable in Ht.
  repeat split; auto.
  destruct (noResponse e), (isECONNABORTED e); simpl in *; congruence.
Qed.

Lemma apiClient_total (mr : nat) (tr : nat -> outcome D) (cfg : requestConfig) :
  exists r, apiClient mr tr cfg = Some r.
Proof.
  destruct (request_total (S mr) mr tr 0 cfg) as (r & H & _); [lia|eauto].
Qed.

(** Claim C2.  Every logical call of the client ends; it sends at most
    three requests, one more than it schedules retries; every retry it
    schedules follows a transport failure or a timeout and never an
    application-level error response, and it waits two to the power of
    the retry counter seconds before it; the retry flag is set at most
    once. *)
Theorem retry_policy (mr : nat) (tr : nat -> outcome D) (cfg : requestConfig) :
  exists r,
    apiClient mr tr cfg = Some r
    /\ attempts r <= 3
    /\ attempts r = S (length (retries r))
    /\ Forall retryWellFormed (retries r)
    /\ flagsSet r <= 1.
Proof.
  destruct (request_total (S mr) mr tr 0 cfg) as (r & H & Ha & Hf & Hl & Hw);
    [lia|].
  exists r. repeat split; auto; lia.
Qed.

(** A call that starts from a configuration without [_retryCount] is
    never retried: [undefined < maxRetries] is false. *)
Lemma fresh_call_single_request (mr : nat) (tr : nat -> outcome D) :
  apiClient mr tr freshConfig = Some (mkRun (tr 0) 1 [] 0).
Proof.
  unfold apiClient. simpl. destruct (tr 0) as [r|e]; [reflexivity|].
  unfold shouldRetry. simpl. rewrite andb_false_r. reflexivity.
Qed.

Lemma post_settles (mr : nat) (tr : nat -> outcome D) : post mr tr = tr 0.
Proof. unfold post. now rewrite fresh_call_single_request. Qed.

End ClientFacts.

(** A call whose configuration carries a counter is retried once, two
    seconds later. *)
Example retry_once :
  PythonApi.apiClient (D := unit) 3
    (fun _ => PythonApi.Rejected (PythonApi.mkError None None true))
    (PythonApi.mkConfig false (Some 0))
  = Some (PythonApi.mkRun
            (PythonApi.Rejected (PythonApi.mkError None None true)) 2
            [PythonApi.mkRetry (PythonApi.mkError None None true) 1 2000] 1).
Proof. reflexivity. Qed.

(** * The cache store *)

Section StoreFacts.
Context {V : Type}.
Import CacheService.

Lemma get_hit (now : Z) (key : str) (s : service V) (x : V) (s' : service V) :
  get now key s = (Some x, s') ->
  (exists en, cache s !! key = Some en /\ v en = x)
  /\ cache s' = cache s
  /\ hits (stats s') = S (hits (stats s)).
Proof.
  unfold get, nodeGet. destruct (cache s !! key) as [en|] eqn:E.
  - destruct (negb (t en =? 0)%Z && (t en <? now)%Z); intros H; inversion H; subst.
    simpl. eauto.
  - intros H; inversion H.
Qed.

Lemma get_live (now : Z) (key : str) (s : service V) (en : entry V) :
  cache s !! key = Some en ->
  (now <= t en)%Z ->
  get now key s
  = (Some (v en),
     mkService (cache s)
       (mkCounters (S (hits (stats s))) (misses (stats s)) (sets (stats s)))).
Proof.
  intros E Ht. unfold get, nodeGet. rewrite E.
  replace (t en <? now)%Z with false by (symmetry; apply Z.ltb_ge; lia).
  now rewrite andb_false_r.
Qed.

(** [get] adds nothing to the store and leaves the other keys alone. *)
Lemma get_lookup (now : Z) (key : str) (s : service V) (k : str) (en : entry V) :
  cache (snd (get now key s)) !! k = Some en -> cache s !! k = Some en.
Proof.
  unfold get, nodeGet. destruct (cache s !! key) as [e0|] eqn:E.
  - destruct (negb (t e0 =? 0)%Z && (t e0 <? now)%Z); simpl; auto.
    intros H. apply lookup_delete_Some in H. tauto.
  - simpl. auto.
Qed.

Lemma set_cache (now : Z) (key : str) (x : V) (s : service V) :
  cache (snd (set now key (Some x) None s))
  = <[key := mkEntry x (now + Z.of_nat (getCacheTTLForKey key) * 1000)%Z]> (cache s).
Proof. reflexivity. Qed.

Lemma nodeDel_lookup (key k : str) (d : gmap str (entry V)) (en : entry V) :
  snd (nodeDel key d) !! k = Some en -> d !! k = Some en.
Proof.
  unfold nodeDel. destruct (d !! key); simpl; auto.
  intros H. apply lookup_delete_Some in H. tauto.
Qed.

Lemma invalidate_fold_lookup (ks : list str) (acc : nat * gmap str (entry V))
    (k : str) (en : entry V) :
  snd (fold_left (fun a key => (S (fst a), snd (nodeDel key (snd a)))) ks acc)
    !! k = Some en ->
  snd acc !! k = Some en.
Proof.
  revert acc. induction ks as [|x ks IH]; intros acc; simpl; auto.
  intros H. apply IH in H. simpl in H. now apply nodeDel_lookup in H.
Qed.

Lemma invalidatePattern_lookup (pattern : str) (s s' : service V) (n : nat)
    (k : str) (en : entry V) :
  invalidatePattern pattern s = Some (n, s') ->
  cache s' !! k = Some en -> cache s !! k = Some en.
Proof.
  unfold invalidatePattern.
  destruct (RegExp.compile _) as [regex|]; [|discriminate].
  destruct (fold_left _ _ _) as [c d] eqn:E. intros H; inversion H; subst.
  simpl. intros Hk.
  apply (invalidate_fold_lookup
           (List.filter (RegExp.test regex) (keys (cache s))) (0, cache s)).
  now rewrite E.
Qed.

Lemma delete_lookup (key : str) (s : service V) (k : str) (en : entry V) :
  cache (snd (delete_ key s)) !! k = Some en -> cache s !! k = Some en.
Proof.
  unfold delete_. destruct (nodeDel key (cache s)) as [c d] eqn:E. simpl.
  intros H. apply (nodeDel_lookup key). now rewrite E.
Qed.

End StoreFacts.

(** * The search controller *)

Section SearchFacts.

Lemma recordSearch_cache (e : env) (u : option caller) (q : str) (w : world) :
  cacheService (recordSearch e u q w) = cacheService w.
Proof.
  unfold recordSearch. destruct u as [c|]; [|reflexivity].
  destruct (id c); [reflexivity|].
  destruct (User_findById_rejects e); [reflexivity|].
  destruct (users w !! _); [|reflexivity].
  destruct (User_save_rejects e); reflexivity.
Qed.

Lemma finish_response (e : env) (u : option caller) (key q : str)
    (d : list service) (pg lm total : nat) (m : message) (w : world) :
  fst (finish e u key q d pg lm total m w)
  = paginated (map transform d) pg lm total m.
Proof. reflexivity. Qed.

Lemma finish_cacheService (e : env) (u : option caller) (key q : str)
    (d : list service) (pg lm total : nat) (m : message) (w : world) :
  cacheService (snd (finish e u key q d pg lm total m w))
  = snd (CacheService.set (now e) key (Some (mkResultSet (map transform d) pg lm total))
           None (cacheService w)).
Proof. unfold finish. simpl. now rewrite recordSearch_cache. Qed.

Lemma search_ending (e : env) (req : request) (w : world) :
  ending e req w (search e req w).
Proof.
  unfold search.
  destruct (validate (req_body req)) as [p|] eqn:Hv; [|now constructor].
  destruct (CacheService.get (now e) (searchCacheKey p) (cacheService w)) as [[c|] cs] eqn:Hg;
    [eapply EndHit; eauto|].
  destruct (Service_find e _) as [[services total]|];
    [|eapply EndError; eauto].
  destruct ((5 <=? length services) || (10 <=? total)).
  - apply (EndMiss e req w p cs services total Obtained [] 0); auto.
  - destruct (PythonApiService.customSearch _) as [py|]; [|eapply EndError; eauto].
    destruct (PythonApiService.success py && (0 <? length (PythonApiService.results py))).
    + destruct (ingest e (p_category p) (PythonApiService.results py)) as [newServices lg].
      eapply EndMiss; eauto.
    + apply (EndMiss e req w p cs services total Obtained [] 1); auto.
Qed.

End SearchFacts.

Section Redaction.

Lemma transform_redacted (s : service) : specRedacted (transform s).
Proof. unfold specRedacted, transform. destruct (premiumOnly s) eqn:E; simpl; congruence. Qed.

Lemma map_transform_redacted (d : list service) :
  Forall specRedacted (map transform d).
Proof. induction d; simpl; constructor; auto using transform_redacted. Qed.

Lemma cacheRedacted_get (now : Z) (key : str)
    (cs : CacheService.service resultSet) :
  cacheRedacted cs -> cacheRedacted (snd (CacheService.get now key cs)).
Proof. intros H k en Hk. apply (H k). now apply get_lookup in Hk. Qed.

Lemma finish_cacheRedacted (e : env) (u : option caller) (key q : str)
    (d : list service) (pg lm total : nat) (m : message) (w : world) :
  cacheRedacted (cacheService w) ->
  cacheRedacted (cacheService (snd (finish e u key q d pg lm total m w))).
Proof.
  intros H k en. rewrite (finish_cacheService e u key q d pg lm total m w).
  rewrite set_cache.
  destruct (decide (key = k)) as [->|Hne].
  - rewrite lookup_insert_eq. intros [= <-]. simpl. apply map_transform_redacted.
  - rewrite lookup_insert_ne by exact Hne. apply H.
Qed.

Lemma search_cacheRedacted (e : env) (req : request) (w : world) :
  cacheRedacted (cacheService w) ->
  cacheRedacted (cacheService (worldOf (search e req w))).
Proof.
  intros H. destruct (search_ending e req w) as [Hv|p c cs Hv Hg|p cs n Hv Hg|p cs d total m lg n Hv Hg];
    unfold worldOf; cbn [fst snd].
  - exact H.
  - simpl. replace cs with (snd (CacheService.get (now e) (searchCacheKey p) (cacheService w)))
      by now rewrite Hg.
    now apply cacheRedacted_get.
  - simpl. replace cs with (snd (CacheService.get (now e) (searchCacheKey p) (cacheService w)))
      by now rewrite Hg.
    now apply cacheRedacted_get.
  - apply finish_cacheRedacted. simpl.
    replace cs with (snd (CacheService.get (now e) (searchCacheKey p) (cacheService w)))
      by now rewrite Hg.
    now apply cacheRedacted_get.
Qed.

Lemma search_response_redacted (e : env) (req : request) (w : world)
    (d : list service) :
  cacheRedacted (cacheService w) ->
  resp_data (responseOf (search e req w)) = Some d ->
  Forall specRedacted d.
Proof.
  intros H. destruct (search_ending e req w) as [Hv|p c cs Hv Hg|p cs n Hv Hg|p cs d' total m lg n Hv Hg];
    unfold responseOf; cbn [fst snd].
  - discriminate.
  - simpl. intros [= <-]. apply get_hit in Hg as [(en & Hen & <-) _].
    now apply (H _ _ Hen).
  - discriminate.
  - rewrite finish_response. simpl. intros [= <-]. apply map_transform_redacted.
Qed.

Lemma reachable_cacheRedacted (w : world) :
  reachable w -> cacheRedacted (cacheService w).
Proof.
  induction 1 as [us|e req w _ IH|pattern n cs w _ IH Hi|key w _ IH|w _ IH|us w _ IH].
  - intros k en. simpl. now rewrite lookup_empty.
  - now apply search_cacheRedacted.
  - intros k en Hk. simpl in Hk. apply (IH k).
    eapply invalidatePattern_lookup; eauto.
  - intros k en Hk. simpl in Hk. apply (IH k). now apply delete_lookup in Hk.
  - intros k en. simpl. now rewrite lookup_empty.
  - exact IH.
Qed.

(** What a cache miss that ends well leaves under the key. *)
Lemma search_miss_cached (e : env) (req : request) (w : world) (p : params) :
  validate (req_body req) = Some p ->
  cacheHit (traceOf (search e req w)) = false ->
  statusCode (responseOf (search e req w)) = 200 ->
  exists d total m,
    responseOf (search e req w) = paginated d (page p) (limit p) total m
    /\ CacheService.cache (cacheService (worldOf (search e req w)))
         !! searchCacheKey p
       = Some (CacheService.mkEntry (mkResultSet d (page p) (limit p) total)
                 (now e + 300000)%Z).
Proof.
  intros Hp.
  destruct (search_ending e req w) as [Hv|p' c cs Hv Hg|p' cs n Hv Hg|p' cs d total m lg n Hv Hg];
    unfold responseOf, worldOf, traceOf; cbn [fst snd];
    try (simpl; discriminate); try congruence.
  intros _ _. assert (p' = p) as -> by congruence.
  exists (map transform d), total, m. split; [apply finish_response|].
  rewrite finish_cacheService, set_cache, lookup_insert_eq.
  reflexivity.
Qed.

(** Claim C8.  In every world the server can reach, whoever the caller
    is (none, unverified, without a payment), every record of a search
    answer that is flagged premiumOnly carries the sentinel as its
    contact.  The page written to the cache on a miss is the specRedacted
    page that is answered, and a hit answers the page found in the
    cache, so both paths serve the same specRedacted records. *)
Theorem premium_contact_redacted (w : world) (e : env) (req : request) :
  reachable w ->
  (forall d s,
      resp_data (responseOf (search e req w)) = Some d ->
      In s d -> premiumOnly s = true -> contactInfo s = sentinel)
  /\ (forall p,
        validate (req_body req) = Some p ->
        cacheHit (traceOf (search e req w)) = false ->
        statusCode (responseOf (search e req w)) = 200 ->
        exists en,
          CacheService.cache (cacheService (worldOf (search e req w)))
            !! searchCacheKey p = Some en
          /\ resp_data (responseOf (search e req w))
             = Some (rs_data (CacheService.v en))
          /\ Forall specRedacted (rs_data (CacheService.v en)))
  /\ (cacheHit (traceOf (search e req w)) = true ->
      exists p en,
        validate (req_body req) = Some p
        /\ CacheService.cache (cacheService w) !! searchCacheKey p = Some en
        /\ resp_data (responseOf (search e req w))
           = Some (rs_data (CacheService.v en))).
Proof.
  intros Hr. pose proof (reachable_cacheRedacted w Hr) as Hc.
  split; [|split].
  - intros d s Hd Hin. pose proof (search_response_redacted e req w d Hc Hd) as Hf.
    rewrite List.Forall_forall in Hf. now apply Hf.
  - intros p Hp Hm Hs.
    destruct (search_miss_cached e req w p Hp Hm Hs) as (d & total & m & Hresp & Hk).
    eexists. split; [exact Hk|]. simpl. split; [now rewrite Hresp|].
    apply (search_response_redacted e req w d Hc). now rewrite Hresp.
  - destruct (search_ending e req w) as [Hv|p c cs Hv Hg|p cs n Hv Hg|p cs d total m lg n Hv Hg];
      unfold traceOf, responseOf; cbn [fst snd]; try (simpl; discriminate).
    intros _. apply get_hit in Hg as [(en & Hen & <-) _].
    exists p, en. auto.
Qed.
End Redaction.

(** A search leaves the entries of the other keys as they were or
    drops them; it adds none. *)
Lemma search_other_keys (e : env) (req : request) (w : world) (p : params)
    (k : str) (en : CacheService.entry resultSet) :
  validate (req_body req) = Some p ->
  k <> searchCacheKey p ->
  CacheService.cache (cacheService (worldOf (search e req w))) !! k = Some en ->
  CacheService.cache (cacheService w) !! k = Some en.
Proof.
  intros Hp Hk.
  destruct (search_ending e req w) as [Hv|p' c cs Hv Hg|p' cs n Hv Hg|p' cs d total m lg n Hv Hg];
    unfold worldOf; cbn [fst snd]; try congruence;
    assert (p' = p) as -> by congruence;
    assert (Hcs : cs = snd (CacheService.get (now e) (searchCacheKey p) (cacheService w)))
      by (now rewrite Hg).
  - cbn [cacheService]. rewrite Hcs. apply get_lookup.
  - cbn [cacheService logError]. rewrite Hcs. apply get_lookup.
  - rewrite finish_cacheService, set_cache, lookup_insert_ne by congruence.
    cbn [cacheService logError]. rewrite Hcs. apply get_lookup.
Qed.

(** A search whose key is not in the store is not answered from it. *)
Lemma search_absent_misses (e : env) (req : request) (w : world) (p : params) :
  validate (req_body req) = Some p ->
  CacheService.cache (cacheService w) !! searchCacheKey p = None ->
  cacheHit (traceOf (search e req w)) = false.
Proof.
  intros Hp Hk.
  destruct (search_ending e req w) as [Hv|p' c cs Hv Hg|p' cs n Hv Hg|p' cs d total m lg n Hv Hg];
    unfold traceOf; cbn [fst snd cacheHit]; try reflexivity.
  assert (p' = p) as -> by congruence.
  apply get_hit in Hg as [(en & Hen & _) _]. congruence.
Qed.

(** Claim C10.  The controller puts the page and the limit into the
    filter object of the key, so two searches with the same query,
    category, location and price that differ in the page or in the
    limit have different cache keys, hence different cache entries:
    where the store has no entry for the second one, serving the first
    one does not make the second one a hit, so the page cached for the
    one is not served for the other. *)
Theorem page_and_limit_distinguish_keys (p1 p2 : params) :
  query p1 = query p2 ->
  p_category p1 = p_category p2 ->
  p_location p1 = p_location p2 ->
  p_price p1 = p_price p2 ->
  page p1 <> page p2 \/ limit p1 <> limit p2 ->
  searchCacheKey p1 <> searchCacheKey p2
  /\ forall e1 e2 req1 req2 w,
       validate (req_body req1) = Some p1 ->
       validate (req_body req2) = Some p2 ->
       CacheService.cache (cacheService w) !! searchCacheKey p2 = None ->
       cacheHit (traceOf (search e2 req2 (worldOf (search e1 req1 w)))) = false.
Proof.
  intros Hq Hc Hl Hp Hd.
  assert (Hne : searchCacheKey p1 <> searchCacheKey p2).
  { intros E. destruct (searchCacheKey_page_limit p1 p2 Hq Hc Hl Hp E).
    destruct Hd; congruence. }
  split; [exact Hne|].
  intros e1 e2 req1 req2 w Hv1 Hv2 Habs.
  apply (search_absent_misses e2 req2 _ p2 Hv2).
  destruct (CacheService.cache (cacheService (worldOf (search e1 req1 w)))
              !! searchCacheKey p2) as [en|] eqn:E; [|reflexivity].
  apply (search_other_keys e1 req1 w p1) in E; congruence.
Qed.

Section TwoCalls.

(** A search that finds its key in the store, not yet expired, is
    answered from it. *)
Lemma search_hit (e : env) (req : request) (w : world) (p : params)
    (en : CacheService.entry resultSet) :
  validate (req_body req) = Some p ->
  CacheService.cache (cacheService w) !! searchCacheKey p = Some en ->
  (now e <= CacheService.t en)%Z ->
  search e req w
  = (paginated (rs_data (CacheService.v en)) (rs_page (CacheService.v en))
       (rs_limit (CacheService.v en)) (rs_total (CacheService.v en)) FromCache,
     mkWorld
       (CacheService.mkService (CacheService.cache (cacheService w))
          (CacheService.mkCounters
             (S (CacheService.hits (CacheService.stats (cacheService w))))
             (CacheService.misses (CacheService.stats (cacheService w)))
             (CacheService.sets (CacheService.stats (cacheService w)))))
       (users w) (errorLog w),
     mkTrace 0 true).
Proof.
  intros Hv Hk Ht. unfold search. rewrite Hv.
  rewrite (get_live (now e) (searchCacheKey p) (cacheService w) en Hk Ht).
  reflexivity.
Qed.

Lemma status_200_valid (e : env) (req : request) (w : world) :
  statusCode (responseOf (search e req w)) = 200 ->
  exists p, validate (req_body req) = Some p.
Proof.
  destruct (search_ending e req w); unfold responseOf; cbn [fst snd];
    eauto; simpl; discriminate.
Qed.

(** Two requests with the same key: the second, made while the entry
    of the first lives, is answered from it. *)
Lemma second_call_hits (e1 e2 : env) (req1 req2 : request) (w : world)
    (p1 p2 : params) :
  validate (req_body req1) = Some p1 ->
  validate (req_body req2) = Some p2 ->
  searchCacheKey p1 = searchCacheKey p2 ->
  cacheHit (traceOf (search e1 req1 w)) = false ->
  statusCode (responseOf (search e1 req1 w)) = 200 ->
  (now e2 <= now e1 + 300000)%Z ->
  let w1 := worldOf (search e1 req1 w) in
  cacheHit (traceOf (search e2 req2 w1)) = true
  /\ resp_data (responseOf (search e2 req2 w1))
     = resp_data (responseOf (search e1 req1 w))
  /\ CacheService.hits (CacheService.stats (cacheService (worldOf (search e2 req2 w1))))
     = S (CacheService.hits (CacheService.stats (cacheService w1))).
Proof.
  intros Hv1 Hv2 Hk Hm Hs Ht w1.
  destruct (search_miss_cached e1 req1 w p1 Hv1 Hm Hs) as (d & total & m & Hr & Hc).
  fold w1 in Hc. rewrite Hk in Hc.
  rewrite (search_hit e2 req2 w1 p2 _ Hv2 Hc) by (simpl; lia).
  rewrite Hr. unfold responseOf, worldOf, traceOf. simpl. auto.
Qed.

End TwoCalls.

(** Claim C4 as stated fails: the location filter keeps its case in the
    key, so the second request misses and the hit counter stays. *)
Lemma filter_case_splits_the_entry :
  let e := envOf 1000 [plumberA] 12 emptyAnswer in
  let first := search e (anonymous "plumber " (VStr (lit "Austin"))) freshWorld in
  let second := search e (anonymous "PLUMBER" (VStr (lit "austin"))) (worldOf first) in
  getSearchKey (lit "plumber ")
    [(lit "location", VStr (lit "Austin")); (lit "page", VNum 1);
     (lit "limit", VNum 20)]
  <> getSearchKey (lit "PLUMBER")
       [(lit "location", VStr (lit "austin")); (lit "page", VNum 1);
        (lit "limit", VNum 20)]
  /\ statusCode (responseOf first) = 200
  /\ cacheHit (traceOf second) = false
  /\ CacheService.hits (CacheService.stats (cacheService (worldOf second)))
     = CacheService.hits (CacheService.stats (cacheService (worldOf first))).
Proof. vm_compute. repeat split; congruence. Qed.

Lemma validate_Some (b : body) (p : params) :
  validate b = Some p ->
  p = mkParams (b_query b) (b_category b) (b_location b) (b_price b)
        (default 1 (b_page b)) (default 20 (b_limit b)).
Proof.
  unfold validate. destruct (_ && _); [|discriminate]. now intros [= <-].
Qed.

(** Validation reads the query only through its length. *)
Lemma validate_other_query (b : body) (p : params) (q : str) :
  validate b = Some p ->
  2 <= length q <= 100 ->
  validate (mkBody q (b_category b) (b_location b) (b_price b) (b_page b)
              (b_limit b))
  = Some (mkParams q (p_category p) (p_location p) (p_price p) (page p)
            (limit p)).
Proof.
  intros Hv [H2 H100]. rewrite (validate_Some b p Hv). revert Hv.
  unfold validate. cbn [b_query b_category b_location b_price b_page b_limit
                        p_category p_location p_price page limit].
  apply Nat.leb_le in H2, H100. rewrite H2, H100.
  destruct (2 <=? length (b_query b)); [|discriminate].
  destruct (length (b_query b) <=? 100); [|discriminate].
  cbn [andb].
  destruct (_ && _); [reflexivity|discriminate].
Qed.

(** Claim C4, amended.  A search for "plumber " followed by a search
    for "PLUMBER", both with the filter location "Austin" written the
    same way and the same page and limit: the two compute the same key,
    and when the first one missed the cache and was answered, the
    second one, made within the 300 seconds the entry lives, is answered
    from the entry the first one wrote and the hit counter grows by
    exactly one. *)
Theorem case_and_space_share_an_entry (e1 e2 : env) (w : world)
    (u1 u2 : option caller) (pg lm : option nat) :
  let filters q := mkBody (lit q) VUndefined (VStr (lit "Austin")) VUndefined pg lm in
  let req1 := mkRequest (filters "plumber ") u1 in
  let req2 := mkRequest (filters "PLUMBER") u2 in
  let first := search e1 req1 w in
  let second := search e2 req2 (worldOf first) in
  cacheHit (traceOf first) = false ->
  statusCode (responseOf first) = 200 ->
  (now e2 <= now e1 + 300000)%Z ->
  (exists p1 p2,
      validate (req_body req1) = Some p1 /\ validate (req_body req2) = Some p2
      /\ searchCacheKey p1 = searchCacheKey p2)
  /\ cacheHit (traceOf second) = true
  /\ resp_data (responseOf second) = resp_data (responseOf first)
  /\ CacheService.hits (CacheService.stats (cacheService (worldOf second)))
     = S (CacheService.hits (CacheService.stats (cacheService (worldOf first)))).
Proof.
  intros filters req1 req2 first second Hm Hs Ht.
  destruct (status_200_valid e1 req1 w Hs) as [p1 Hv1].
  pose proof (validate_other_query _ p1 (lit "PLUMBER") Hv1) as Hv2.
  specialize (Hv2 ltac:(simpl; lia)).
  change (validate (req_body req2) = Some (mkParams (lit "PLUMBER") (p_category p1)
            (p_location p1) (p_price p1) (page p1) (limit p1))) in Hv2.
  assert (Hk : searchCacheKey p1
               = searchCacheKey (mkParams (lit "PLUMBER") (p_category p1)
                                   (p_location p1) (p_price p1) (page p1) (limit p1))).
  { unfold searchCacheKey, getSearchKey.
    rewrite (validate_Some _ p1 Hv1).
    cbn [query p_category p_location p_price page limit req_body req1 filters
         b_query b_category b_location b_price b_page b_limit].
    replace (normalizeQuery (lit "PLUMBER")) with (normalizeQuery (lit "plumber "))
      by (vm_compute; reflexivity).
    reflexivity. }
  split; [eauto|].
  exact (second_call_hits e1 e2 req1 req2 w p1 _ Hv1 Hv2 Hk Hm Hs Ht).
Qed.

Lemma case_and_space_share_an_entry_witness :
  let e := envOf 1000 [plumberA] 12 emptyAnswer in
  let first := search e (anonymous "plumber " (VStr (lit "Austin"))) freshWorld in
  let second := search e (anonymous "PLUMBER" (VStr (lit "Austin"))) (worldOf first) in
  cacheHit (traceOf second) = true
  /\ CacheService.hits (CacheService.stats (cacheService (worldOf second)))
     = S (CacheService.hits (CacheService.stats (cacheService (worldOf first)))).
Proof.
  intros e first second.
  destruct (case_and_space_share_an_entry e e freshWorld None None None None)
    as (_ & H1 & _ & H2).
  - vm_compute. reflexivity.
  - vm_compute. reflexivity.
  - vm_compute. discriminate.
  - split; [exact H1 | exact H2].
Defined.

Section Sufficiency.

Lemma gate_true (n total : nat) :
  5 <= n \/ 10 <= total -> (5 <=? n) || (10 <=? total) = true.
Proof.
  intros [H|H]; apply orb_true_iff; [left|right]; now apply Nat.leb_le.
Qed.

Lemma gate_false (n total : nat) :
  n < 5 -> total < 10 -> (5 <=? n) || (10 <=? total) = false.
Proof.
  intros H1 H2. apply orb_false_iff. split; apply Nat.leb_gt; assumption.
Qed.

(** Claim C6.  On a cache miss, when the local page has at least 5
    records or the local total is at least 10, the remote search is not
    invoked: the call count is 0, the answer is the (specRedacted) local
    page with the local total, and nothing depends on the remote
    service. *)
Theorem sufficient_local_results_skip_remote (e : env) (req : request)
    (w : world) (p : params) (services : list service) (total : nat) :
  validate (req_body req) = Some p ->
  fst (CacheService.get (now e) (searchCacheKey p) (cacheService w)) = None ->
  Service_find e (searchQueryOf (req_user req) p) = Some (services, total) ->
  5 <= length services \/ 10 <= total ->
  remoteCalls (traceOf (search e req w)) = 0
  /\ responseOf (search e req w)
     = paginated (map transform services) (page p) (limit p) total Obtained
  /\ forall mr tr, search (withRemote e mr tr) req w = search e req w.
Proof.
  intros Hv Hm Hf Hg. apply gate_true in Hg.
  assert (Hs : forall e', now e' = now e -> Service_find e' = Service_find e ->
             User_findById_rejects e' = User_findById_rejects e ->
             User_save_rejects e' = User_save_rejects e ->
             search e' req w
             = (finish e (req_user req) (searchCacheKey p) (query p) services
                  (page p) (limit p) total Obtained
                  (mkWorld (snd (CacheService.get (now e) (searchCacheKey p) (cacheService w)))
                     (users w) (errorLog w)),
                mkTrace 0 false)).
  { intros e' Hn Hfind Hu1 Hu2. unfold search. rewrite Hv, Hn.
    destruct (CacheService.get (now e) (searchCacheKey p) (cacheService w))
      as [[c|] cs]; [discriminate|].
    rewrite Hfind, Hf, Hg. cbn [snd]. f_equal.
    unfold finish, cacheResult, recordSearch. rewrite Hn, Hu1, Hu2. reflexivity. }
  repeat split.
  - now rewrite (Hs e).
  - now rewrite (Hs e).
  - intros mr tr. rewrite (Hs e), (Hs (withRemote e mr tr)); reflexivity.
Qed.

Lemma sufficient_local_results_skip_remote_witness :
  let e := envOf 1000 [plumberA] 12 (PythonApi.Rejected timeoutError) in
  let req := anonymous "plumber" VUndefined in
  remoteCalls (traceOf (search e req freshWorld)) = 0
  /\ responseOf (search e req freshWorld) = paginated [plumberA] 1 20 12 Obtained.
Proof.
  intros e req.
  destruct (sufficient_local_results_skip_remote e req freshWorld
              (mkParams (lit "plumber") VUndefined VUndefined VUndefined 1 20)
              [plumberA] 12) as (H1 & H2 & _).
  - reflexivity.
  - reflexivity.
  - reflexivity.
  - right. repeat constructor.
  - split; [exact H1 | exact H2].
Defined.

(** Property X17.  On a cache miss with a local page below both
    thresholds, when the remote search throws (the call times out, is
    refused, or is answered with a status other than 200), the search is
    answered with status 500 after exactly one remote call; the local
    records are not returned. *)
Lemma remote_failure_fails_search (e : env) (req : request) (w : world)
    (p : params) (services : list service) (total : nat) :
  validate (req_body req) = Some p ->
  fst (CacheService.get (now e) (searchCacheKey p) (cacheService w)) = None ->
  Service_find e (searchQueryOf (req_user req) p) = Some (services, total) ->
  length services < 5 -> total < 10 ->
  PythonApiService.customSearch (PythonApi.post (maxRetries e) (transport e)) = None ->
  responseOf (search e req w) = error 500 ProcessingFailed
  /\ remoteCalls (traceOf (search e req w)) = 1.
Proof.
  intros Hv Hm Hf H5 H10 Hr. unfold search. rewrite Hv.
  destruct (CacheService.get (now e) (searchCacheKey p) (cacheService w))
    as [[c|] cs]; [discriminate|].
  rewrite Hf, (gate_false _ _ H5 H10), Hr. split; reflexivity.
Qed.

(** Property X19.  On a cache miss with a local page below both
    thresholds, when the remote service answers with status 200 and no
    records, the answer is the local page (redacted) with the local
    total. *)
Lemma remote_empty_keeps_local (e : env) (req : request) (w : world)
    (p : params) (services : list service) (total : nat) (r : PythonApi.response PythonApiService.payload) :
  validate (req_body req) = Some p ->
  fst (CacheService.get (now e) (searchCacheKey p) (cacheService w)) = None ->
  Service_find e (searchQueryOf (req_user req) p) = Some (services, total) ->
  length services < 5 -> total < 10 ->
  transport e 0 = PythonApi.Fulfilled r ->
  PythonApi.status r = 200 ->
  default [] (PythonApi.data r) = [] ->
  responseOf (search e req w)
  = paginated (map transform services) (page p) (limit p) total Obtained.
Proof.
  intros Hv Hm Hf H5 H10 Ht Hs Hd. unfold search. rewrite Hv.
  destruct (CacheService.get (now e) (searchCacheKey p) (cacheService w))
    as [[c|] cs]; [discriminate|].
  rewrite Hf, (gate_false _ _ H5 H10), post_settles, Ht.
  unfold PythonApiService.customSearch. rewrite Hs, Hd. reflexivity.
Qed.

End Sufficiency.

(** Claim C1 fails on the code.  With one local match (below both
    thresholds) and a remote call that times out, the client rejects
    after a single request, [customSearch] throws, and the search is
    answered with status 500 and no data instead of the local page. *)
Theorem remote_timeout_is_surfaced :
  let e := envOf 1000 [plumberA] 1 (PythonApi.Rejected timeoutError) in
  let req := anonymous "plumber" VUndefined in
  PythonApi.apiClient (maxRetries e) (transport e) PythonApi.freshConfig
  = Some (PythonApi.mkRun (PythonApi.Rejected timeoutError) 1 [] 0)
  /\ responseOf (search e req freshWorld) = error 500 ProcessingFailed
  /\ resp_success (responseOf (search e req freshWorld)) = false
  /\ resp_data (responseOf (search e req freshWorld)) = None.
Proof. vm_compute. repeat split. Qed.

(** * The search history *)

Section History.

Lemma addRecentSearch_firstn (q : str) (now : Z) (u : User.user) :
  User.recentSearches (User.addRecentSearch q now u)
  = firstn 10 (User.mkRecentSearch q now :: User.recentSearches u).
Proof.
  unfold User.addRecentSearch. cbn [User.recentSearches].
  destruct (10 <? length _) eqn:E; [reflexivity|].
  apply Nat.ltb_ge in E. symmetry. now apply firstn_all2.
Qed.

Lemma addRecentSearch_length (q : str) (now : Z) (u : User.user) :
  length (User.recentSearches (User.addRecentSearch q now u)) <= 10.
Proof. rewrite addRecentSearch_firstn. apply firstn_le_length. Qed.

Lemma addRecentSearch_head (q : str) (now : Z) (u : User.user) :
  hd_error (User.recentSearches (User.addRecentSearch q now u))
  = Some (User.mkRecentSearch q now).
Proof. now rewrite addRecentSearch_firstn. Qed.

(** On a miss that ends well the search is recorded, and a failure of
    the user store while recording changes neither the answer nor the
    users. *)
Lemma finish_users (e : env) (u : option caller) (key q : str)
    (d : list service) (pg lm total : nat) (m : message) (w : world) :
  users (snd (finish e u key q d pg lm total m w))
  = match u with
    | Some c =>
        match id c, users w !! id c with
        | _ :: _, Some usr =>
            if User_findById_rejects e || User_save_rejects e then users w
            else <[id c := User.addRecentSearch q (now e) usr]> (users w)
        | _, _ => users w
        end
    | None => users w
    end.
Proof.
  unfold finish, recordSearch, cacheResult. cbn [snd users].
  destruct u as [c|]; [|reflexivity].
  destruct (id c); [reflexivity|].
  destruct (User_findById_rejects e); cbn [orb];
    [destruct (users w !! _); reflexivity|].
  destruct (users w !! _); [|reflexivity].
  destruct (User_save_rejects e); reflexivity.
Qed.

(** A search answered from the cache leaves every history as it was. *)
Lemma search_hit_users (e : env) (req : request) (w : world) :
  cacheHit (traceOf (search e req w)) = true ->
  users (worldOf (search e req w)) = users w
  /\ statusCode (responseOf (search e req w)) = 200.
Proof.
  destruct (search_ending e req w); unfold traceOf, worldOf, responseOf;
    cbn [fst snd cacheHit]; try discriminate.
  intros _. split; reflexivity.
Qed.

(** Property X22.  A search that misses the cache and is answered is
    recorded for a signed-in caller whose account exists, when the user
    store works: afterwards the account of the caller is the old one
    with the query added to its history at the time of the request. *)
Lemma search_miss_records (e : env) (req : request) (w : world) (p : params)
    (c : caller) (u : User.user) :
  validate (req_body req) = Some p ->
  cacheHit (traceOf (search e req w)) = false ->
  statusCode (responseOf (search e req w)) = 200 ->
  req_user req = Some c -> id c <> [] ->
  users w !! id c = Some u ->
  User_findById_rejects e = false -> User_save_rejects e = false ->
  users (worldOf (search e req w)) !! id c
  = Some (User.addRecentSearch (query p) (now e) u).
Proof.
  intros Hp.
  destruct (search_ending e req w) as [Hv|p' c' cs Hv Hg|p' cs n Hv Hg|p' cs d total m lg n Hv Hg];
    unfold responseOf, worldOf, traceOf; cbn [fst snd cacheHit];
    try (simpl; discriminate); try congruence.
  intros _ _ Hu Hid Hus Hf Hs. assert (p' = p) as -> by congruence.
  rewrite finish_users, Hu. cbn [users logError]. rewrite Hus, Hf, Hs.
  destruct (id c) as [|x r] eqn:E; [congruence|].
  cbn [orb]. apply lookup_insert_eq.
Qed.

(** Property X23.  A user store that fails while the search is
    recorded (the lookup or the save rejects) changes neither the
    answer nor the cache: both are what they are with a user store that
    works. *)
Lemma history_failure_is_ignored (e : env) (req : request) (w : world)
    (b1 b2 : bool) :
  responseOf (search (withUserStore e b1 b2) req w) = responseOf (search e req w)
  /\ cacheService (worldOf (search (withUserStore e b1 b2) req w))
     = cacheService (worldOf (search e req w)).
Proof.
  unfold search, responseOf, worldOf.
  change (now (withUserStore e b1 b2)) with (now e).
  change (Service_find (withUserStore e b1 b2)) with (Service_find e).
  change (maxRetries (withUserStore e b1 b2)) with (maxRetries e).
  change (transport (withUserStore e b1 b2)) with (transport e).
  change (ingest (withUserStore e b1 b2)) with (ingest e).
  destruct (validate (req_body req)) as [p|]; [|split; reflexivity].
  destruct (CacheService.get (now e) (searchCacheKey p) (cacheService w)) as [[c|] cs];
    [split; reflexivity|].
  destruct (Service_find e _) as [[services total]|]; [|split; reflexivity].
  destruct ((5 <=? length services) || (10 <=? total)).
  - cbn [fst snd]. rewrite !finish_cacheService. split; reflexivity.
  - destruct (PythonApiService.customSearch _) as [py|]; [|split; reflexivity].
    destruct (PythonApiService.success py && (0 <? length (PythonApiService.results py))).
    + destruct (ingest e (p_category p) (PythonApiService.results py)) as [newServices lg].
      cbn [fst snd]. rewrite !finish_cacheService. split; reflexivity.
    + cbn [fst snd]. rewrite !finish_cacheService. split; reflexivity.
Qed.

End History.

(** Claim C9 fails on the code.  A signed-in caller searches twice; the
    first search is recorded, the second one is answered from the cache
    with status 200 and leaves the history as it was. *)
Theorem cache_hit_skips_history :
  let e := envOf 1000 [plumberA] 12 emptyAnswer in
  let req := signedIn "u1" "plumber" in
  let first := search e req (worldWith "u1") in
  let second := search e req (worldOf first) in
  (User.recentSearches <$> users (worldOf first) !! lit "u1")
  = Some [User.mkRecentSearch (lit "plumber") 1000]
  /\ statusCode (responseOf second) = 200
  /\ resp_success (responseOf second) = true
  /\ cacheHit (traceOf second) = true
  /\ (User.recentSearches <$> users (worldOf second) !! lit "u1")
     = Some [User.mkRecentSearch (lit "plumber") 1000].
Proof. vm_compute. repeat split. Qed.

Section Merge.

Lemma mapHas_known (k : str) (m : list (str * service)) :
  mapHas k m = known (map fst m) k.
Proof.
  induction m as [|[k' y] m IH]; simpl; [reflexivity|]. now rewrite IH.
Qed.

Lemma mapSet_fresh (k : str) (x : service) (m : list (str * service)) :
  mapHas k m = false -> mapSet k x m = m ++ [(k, x)].
Proof.
  induction m as [|[k' y] m IH]; simpl; [reflexivity|].
  intros H. apply orb_false_iff in H as [H1 H2].
  rewrite H1. now rewrite IH.
Qed.

Lemma known_false (seen : list str) (k : str) :
  ~ In k seen -> known seen k = false.
Proof.
  induction seen as [|k' seen IH]; simpl; [reflexivity|].
  intros H. rewrite IH by tauto.
  rewrite bool_decide_eq_false_2; [reflexivity|]. intros ->. tauto.
Qed.

Lemma known_true (seen : list str) (k : str) :
  known seen k = true -> In k seen.
Proof.
  unfold known. rewrite existsb_exists. intros (k' & Hin & Hk).
  apply bool_decide_eq_true in Hk. now subst.
Qed.

Lemma locals_fold (services : list service) (m : list (str * service)) :
  List.NoDup (map fst m ++ map _id services) ->
  fold_left (fun m s => mapSet (_id s) s m) services m
  = m ++ map keyed services.
Proof.
  revert m. induction services as [|s r IH]; intros m Hnd; simpl.
  - now rewrite List.app_nil_r.
  - rewrite mapSet_fresh.
    + rewrite IH.
      * now rewrite <- List.app_assoc.
      * rewrite map_app. simpl. rewrite <- List.app_assoc. exact Hnd.
    + rewrite mapHas_known. apply known_false.
      apply NoDup_remove_2 in Hnd. intros Hin. apply Hnd.
      apply in_or_app. now left.
Qed.

Lemma news_fold (news : list service) (m : list (str * service)) :
  fold_left
    (fun m s => if mapHas (_id s) m then m else mapSet (_id s) s m) news m
  = m ++ map keyed (firstNew (map fst m) news).
Proof.
  revert m. induction news as [|s r IH]; intros m; simpl.
  - now rewrite List.app_nil_r.
  - rewrite mapHas_known. destruct (known (map fst m) (_id s)) eqn:E.
    + apply IH.
    + rewrite mapSet_fresh by now rewrite mapHas_known.
      rewrite IH, map_app, <- List.app_assoc. reflexivity.
Qed.

Lemma map_snd_keyed (l : list service) : map snd (map keyed l) = l.
Proof. induction l; simpl; congruence. Qed.

Lemma map_fst_keyed (l : list service) : map fst (map keyed l) = map _id l.
Proof. induction l; simpl; congruence. Qed.

(** The values of the map: the local records, then the new records
    whose identity was not seen before. *)
Lemma combine_values (services newServices : list service) :
  List.NoDup (map _id services) ->
  map snd (combine services newServices)
  = services ++ firstNew (map _id services) newServices.
Proof.
  intros Hnd. unfold combine.
  rewrite locals_fold by exact Hnd. simpl.
  rewrite news_fold, map_app, !map_snd_keyed, map_fst_keyed. reflexivity.
Qed.

Lemma firstNew_all (seen : list str) (news : list service) :
  List.NoDup (seen ++ map _id news) -> firstNew seen news = news.
Proof.
  revert seen. induction news as [|s r IH]; intros seen Hnd; simpl; [reflexivity|].
  rewrite known_false.
  - f_equal. apply IH. simpl in Hnd. now rewrite <- List.app_assoc.
  - apply NoDup_remove_2 in Hnd. intros Hin. apply Hnd.
    apply in_or_app. now left.
Qed.

Lemma compareServices_relevance (a b : service) (ra rb : Q) :
  relevance a = Some ra -> relevance b = Some rb ->
  compareServices a b = Qcompare rb ra.
Proof. unfold compareServices. now intros -> ->. Qed.

Lemma sort_by_relevance (l : list service) :
  Forall hasRelevance l ->
  StronglySorted relevanceDescending (sort compareServices l).
Proof.
  intros Hl.
  assert (Hs : StronglySorted (notAfter compareServices) (sort compareServices l)).
  { apply (sort_sorted compareServices hasRelevance); [| |exact Hl].
    - intros a b Ha Hb. unfold hasRelevance in *.
      destruct (relevance a) as [ra|] eqn:Ea; [|congruence].
      destruct (relevance b) as [rb|] eqn:Eb; [|congruence].
      rewrite (compareServices_relevance a b ra rb Ea Eb),
        (compareServices_relevance b a rb ra Eb Ea).
      rewrite <- (Qcompare_antisym rb ra). destruct (rb ?= ra)%Q; simpl; congruence.
    - intros a b c Ha Hb Hc. unfold hasRelevance in *.
      destruct (relevance a) as [ra|] eqn:Ea; [|congruence].
      destruct (relevance b) as [rb|] eqn:Eb; [|congruence].
      destruct (relevance c) as [rc|] eqn:Ec; [|congruence].
      rewrite (compareServices_relevance a b ra rb Ea Eb),
        (compareServices_relevance b c rb rc Eb Ec),
        (compareServices_relevance a c ra rc Ea Ec).
      rewrite <- !Qle_alt. intros H1 H2. now apply (Qle_trans _ rb). }
  assert (Hp : Forall hasRelevance (sort compareServices l)).
  { eapply Permutation_Forall; [symmetry; apply sort_Permutation|exact Hl]. }
  induction Hs as [|a r Hr IH Ha]; constructor.
  - apply IH. now inversion Hp.
  - inversion Hp as [|? ? Pa Pr]; subst.
    rewrite List.Forall_forall in *. intros b Hb.
    specialize (Ha b Hb). specialize (Pr b Hb).
    unfold relevanceDescending, notAfter, hasRelevance in *.
    destruct (relevance a) as [ra|] eqn:Ea; [|congruence].
    destruct (relevance b) as [rb|] eqn:Eb; [|congruence].
    rewrite (compareServices_relevance a b ra rb Ea Eb) in Ha.
    now apply Qle_alt.
Qed.

End Merge.

Section MergeAndRank.

(** The answer on the path that merges. *)
Lemma search_combined (e : env) (req : request) (w : world) (p : params)
    (services : list service) (total : nat)
    (py : PythonApiService.searchResult) :
  validate (req_body req) = Some p ->
  fst (CacheService.get (now e) (searchCacheKey p) (cacheService w)) = None ->
  Service_find e (searchQueryOf (req_user req) p) = Some (services, total) ->
  length services < 5 -> total < 10 ->
  PythonApiService.customSearch (PythonApi.post (maxRetries e) (transport e))
  = Some py ->
  PythonApiService.results py <> [] ->
  let combined :=
    combinedServices services
      (fst (ingest e (p_category p) (PythonApiService.results py))) in
  responseOf (search e req w)
  = paginated
      (map transform
         (slice ((page p - 1) * limit p) ((page p - 1) * limit p + limit p)
            combined))
      (page p) (limit p) (length combined) ObtainedCombined.
Proof.
  intros Hv Hm Hf H5 H10 Hr Hne combined. unfold search. rewrite Hv.
  destruct (CacheService.get (now e) (searchCacheKey p) (cacheService w))
    as [[c|] cs]; [discriminate|].
  rewrite Hf, (gate_false _ _ H5 H10), Hr.
  assert (Hs : PythonApiService.success py = true).
  { revert Hr. unfold PythonApiService.customSearch.
    destruct (PythonApi.post _ _) as [r|]; [|discriminate].
    destruct (PythonApi.status r =? 200); [|discriminate].
    now intros [= <-]. }
  rewrite Hs. destruct (PythonApiService.results py) as [|x l] eqn:El; [congruence|].
  cbn [length Nat.ltb Nat.leb andb].
  subst combined.
  destruct (ingest e (p_category p) (x :: l)) as [newServices lg].
  reflexivity.
Qed.

(** Two records of equal relevance stay in insertion order whatever
    their ratings, and a new record does not replace a local record of
    the same identity. *)
Lemma merge_is_not_the_specified_ranking :
  let a := record "a" 50 1 "555-1" in
  let b := record "b" 50 5 "555-2" in
  let a' := record "a" 99 5 "555-9" in
  combinedServices [a] [b] = [a; b]
  /\ specRanked (combinedServices [a] [b]) = false
  /\ combinedServices [a] [a'] = [a].
Proof. vm_compute. repeat split. Qed.

(** What the merge does by design, for local records of distinct
    identities: the merged set is the local records followed by the new
    records whose identity was not seen before (the first record of an
    identity is kept), in the order of the sort; when every record has
    a relevance the comparator is an ordering and the list is sorted by
    relevance descending; new records with identities of their own all
    enter. *)
Lemma merge_and_rank (services newServices : list service) :
  List.NoDup (map _id services) ->
  let combined := combinedServices services newServices in
  Permutation combined (services ++ firstNew (map _id services) newServices)
  /\ (Forall hasRelevance (services ++ newServices) ->
      StronglySorted relevanceDescending combined)
  /\ (List.NoDup (map _id (services ++ newServices)) ->
      length combined = length services + length newServices).
Proof.
  intros Hnd combined. unfold combined, combinedServices.
  repeat split.
  - rewrite sort_Permutation. now rewrite combine_values.
  - intros Hr. apply sort_by_relevance. rewrite combine_values by exact Hnd.
    rewrite List.Forall_forall in *. intros s Hs. apply Hr.
    apply in_app_or in Hs as [Hs|Hs]; apply in_or_app; [now left|right].
    clear -Hs. revert Hs. generalize (map _id services) as seen.
    induction newServices as [|x r IH]; simpl; [tauto|].
    intros seen. destruct (known seen (_id x)).
    + intros H. right. eapply IH. exact H.
    + intros [->|H]; [now left|right; eapply IH; exact H].
  - intros Hall. rewrite sort_length, combine_values by exact Hnd.
    rewrite firstNew_all; [apply length_app|].
    now rewrite <- map_app.
Qed.

(** Claim C7 fails on the code, at two local matches and five new
    records of the remote service, each with an identity of its own.
    When the candidates name their category, the loop that takes them
    in evaluates the unbound name [mongoose] for each of them, none is
    kept, and the answer reports a total of 2.  When they name none,
    all five are built and the total is 7, but the comparator returns
    the difference of the two relevances also when it is 0: the local
    record "a" (relevance 70, rating 4) stays before the new record of
    relevance 70 and rating 5, so the tie is not broken by rating. *)
Theorem merged_answer_misses_total_and_tie_break :
  let named := search envNamed (anonymous "plumber" VUndefined) freshWorld in
  let fresh := search envFresh inCategory freshWorld in
  statusCode (responseOf named) = 200
  /\ option_map pg_total (resp_meta (responseOf named)) = Some 2
  /\ length (errorLog (worldOf named)) = 5
  /\ statusCode (responseOf fresh) = 200
  /\ option_map pg_total (resp_meta (responseOf fresh)) = Some 7
  /\ option_map (map (fun s => (_id s, relevance s, rating s)))
       (resp_data (responseOf fresh))
     = Some [(lit "new0", Some 90%Q, Some 1%Q); (lit "a", Some 70%Q, Some 4%Q);
             (lit "new3", Some 70%Q, Some 5%Q); (lit "new2", Some 55%Q, Some 3%Q);
             (lit "b", Some 40%Q, Some 5%Q); (lit "new4", Some 30%Q, Some 0%Q);
             (lit "new1", Some 10%Q, Some 2%Q)]
  /\ option_map specRanked (resp_data (responseOf fresh)) = Some false.
Proof. vm_compute. repeat split. Qed.

Example ranked_identities :
  map _id (combinedServices twoLocal fiveNew)
  = map lit ["c"; "a"; "f"; "e"; "b"; "g"; "d"]%string.
Proof. vm_compute. reflexivity. Qed.

End MergeAndRank.

(** * Pattern invalidation *)

Section Invalidation.
Context {V : Type}.
Import CacheService.

Lemma plain_atom (c : ascii) :
  plain c = true -> RegExp.atomOf c = Some (RegExp.Lit c) /\ c <> "*"%char.
Proof.
  unfold plain, RegExp.atomOf.
  destruct (Ascii.eqb c ".") eqn:Ed; [discriminate|].
  destruct (RegExp.isSyntaxChar c) eqn:Es; [discriminate|].
  intros _. split; [reflexivity|]. intros ->. discriminate.
Qed.

Lemma compile_literal_star (p : str) :
  forallb plain p = true ->
  RegExp.compile (p ++ lit ".*")
  = Some (literalPieces p ++ [(RegExp.AnyChar, true)]).
Proof.
  induction p as [|c p IH]; [reflexivity|].
  cbn [forallb]. intros H. apply andb_prop in H as [Hc Hp].
  destruct (plain_atom c Hc) as [Ha _].
  cbn [app RegExp.compile]. rewrite Ha.
  destruct p as [|c' p'].
  - reflexivity.
  - cbn [forallb] in Hp. apply andb_prop in Hp as [Hc' Hp'].
    destruct (plain_atom c' Hc') as [_ Hne].
    cbn [app] in *.
    assert (Hr : RegExp.compile (c' :: p' ++ lit ".*")
                 = Some (literalPieces (c' :: p') ++ [(RegExp.AnyChar, true)])).
    { apply IH. cbn [forallb]. now rewrite Hc', Hp'. }
    destruct (ascii_dec c' "*") as [->|Hn]; [congruence|].
    assert (Hm : forall (X : Type) (a b : X),
               match c' :: p' ++ lit ".*" with
               | "*"%char :: _ => a
               | _ => b
               end = b).
    { intros X a b. destruct c' as [[] [] [] [] [] [] [] []]; try reflexivity.
      congruence. }
    rewrite Hm, Hr. reflexivity.
Qed.

Lemma replaceFirst_literal_star (p : str) :
  forallb plain p = true ->
  replaceFirst "*"%char (lit ".*") (p ++ lit "*") = p ++ lit ".*".
Proof.
  induction p as [|c p IH]; [reflexivity|].
  cbn [forallb]. intros H. apply andb_prop in H as [Hc Hp].
  destruct (plain_atom c Hc) as [_ Hne].
  cbn [app replaceFirst].
  destruct (Ascii.eqb c "*") eqn:E; [apply Ascii.eqb_eq in E; congruence|].
  now rewrite IH.
Qed.

Lemma matchHere_star_any (s : str) :
  RegExp.matchHere [(RegExp.AnyChar, true)] s = true.
Proof. destruct s; reflexivity. Qed.

Lemma matchHere_literal (p s : str) :
  RegExp.matchHere (literalPieces p ++ [(RegExp.AnyChar, true)]) s
  = startsWith s p.
Proof.
  revert s. induction p as [|c p IH]; intros s.
  - cbn [literalPieces map app startsWith]. apply matchHere_star_any.
  - destruct s as [|x s]; [reflexivity|].
    cbn [literalPieces map app RegExp.matchHere RegExp.accepts startsWith].
    f_equal. apply IH.
Qed.

Lemma test_includes (p s : str) :
  RegExp.test (literalPieces p ++ [(RegExp.AnyChar, true)]) s = includes s p.
Proof.
  induction s as [|x s IH]; cbn [RegExp.test includes];
    rewrite matchHere_literal; [reflexivity|now rewrite IH].
Qed.

Lemma nodeDel_snd_lookup (key k : str) (d : gmap str (entry V)) :
  snd (nodeDel key d) !! k = if decide (key = k) then None else d !! k.
Proof.
  unfold nodeDel. destruct (d !! key) eqn:E; cbn [snd].
  - apply lookup_delete.
  - destruct (decide (key = k)) as [<-|]; [exact E|reflexivity].
Qed.

Lemma invalidate_fold (ks : list str) (n : nat) (d : gmap str (entry V)) :
  let r := fold_left (fun a key => (S (fst a), snd (nodeDel key (snd a))))
             ks (n, d) in
  fst r = n + length ks
  /\ forall k, snd r !! k = if known ks k then None else d !! k.
Proof.
  revert n d. induction ks as [|x ks IH]; intros n d; cbn [fold_left fst snd].
  - split; [cbn; lia|]. intros k. reflexivity.
  - destruct (IH (S n) (snd (nodeDel x d))) as [H1 H2]. split.
    + rewrite H1. cbn [length]. lia.
    + intros k. rewrite H2, nodeDel_snd_lookup. cbn [known existsb].
      fold (known ks k). destruct (known ks k); [now rewrite orb_true_r|].
      rewrite orb_false_r. destruct (decide (x = k)) as [->|Hne].
      * now rewrite bool_decide_eq_true_2.
      * now rewrite bool_decide_eq_false_2.
Qed.

(** Property X4.  What [invalidatePattern] does with a literal
    (without regular-expression syntax characters) followed by a star:
    it removes exactly the keys that contain the literal, wherever it
    stands in the key, returns their number, keeps every other entry as
    it is, and leaves the counters alone. *)
Theorem invalidatePattern_literal_star (p : str) (s : service V) :
  forallb plain p = true ->
  exists n s',
    invalidatePattern (p ++ lit "*") s = Some (n, s')
    /\ n = length (List.filter (fun k => includes k p) (keys (cache s)))
    /\ stats s' = stats s
    /\ forall k, cache s' !! k = if includes k p then None else cache s !! k.
Proof.
  intros Hp. unfold invalidatePattern.
  rewrite (replaceFirst_literal_star p Hp), (compile_literal_star p Hp).
  set (ks := List.filter _ (keys (cache s))).
  destruct (invalidate_fold ks 0 (cache s)) as [Hn Hk].
  destruct (fold_left _ ks (0, cache s)) as [n d]. cbn [fst snd] in *.
  exists n, (mkService d (stats s)). split; [reflexivity|].
  assert (Hks : ks = List.filter (fun k => includes k p) (keys (cache s))).
  { unfold ks. apply List.filter_ext. intros k. apply test_includes. }
  split; [now rewrite Hn, Hks|]. split; [reflexivity|].
  intros k. cbn [cache]. rewrite Hk.
  destruct (known ks k) eqn:E.
  - apply known_true in E. rewrite Hks in E. apply List.filter_In in E as [_ E].
    now rewrite E.
  - destruct (includes k p) eqn:Ei; [|reflexivity].
    destruct (cache s !! k) as [en|] eqn:El; [|reflexivity].
    assert (Hin : In k ks).
    { rewrite Hks. apply List.filter_In. split; [|exact Ei].
      unfold keys. apply in_map_iff. exists (k, en). split; [reflexivity|].
      apply list_elem_of_In, elem_of_map_to_list. exact El. }
    assert (Ht : known ks k = true).
    { apply existsb_exists. exists k. split; [exact Hin|]. now apply bool_decide_eq_true. }
    congruence.
Qed.

End Invalidation.

(** * Concrete checks *)

(** A key that starts with the literal also contains it. *)
Lemma startsWith_includes (k p : str) :
  CacheService.startsWith k p = true -> includes k p = true.
Proof. intros H. destruct k; cbn [includes]; now rewrite H. Qed.

(** Claim C3 fails on the code.  The pattern is compiled to a regular
    expression without an anchor, so "services:category:42:*" also
    removes the cached search for the text "services:category:42:",
    whose key starts with "search:q:": two keys are removed and counted
    where one starts with the literal. *)
Theorem pattern_removes_keys_without_the_prefix :
  let prefix := lit "services:category:42:" in
  CacheService.startsWith listingKey prefix = true
  /\ CacheService.startsWith searchedKey prefix = false
  /\ is_Some (CacheService.cache twoPages !! searchedKey)
  /\ (fst <$> CacheService.invalidatePattern (prefix ++ lit "*") twoPages)
     = Some 2
  /\ ((fun r => CacheService.cache (snd r) !! searchedKey)
        <$> CacheService.invalidatePattern (prefix ++ lit "*") twoPages)
     = Some None.
Proof. vm_compute. repeat split; eauto. Qed.

(** The theorem of claim C10 at two pages of one search. *)
Lemma page_and_limit_distinguish_keys_witness :
  searchCacheKey (mkParams (lit "plumber") VNull (VStr (lit "Austin")) VUndefined 1 20)
  <> searchCacheKey (mkParams (lit "plumber") VNull (VStr (lit "Austin")) VUndefined 2 20).
Proof.
  apply (page_and_limit_distinguish_keys
           (mkParams (lit "plumber") VNull (VStr (lit "Austin")) VUndefined 1 20)
           (mkParams (lit "plumber") VNull (VStr (lit "Austin")) VUndefined 2 20));
    try reflexivity.
  left. cbn. discriminate.
Defined.

(** The theorem of claim C8 at the first request of a fresh server. *)
Lemma premium_contact_redacted_witness :
  reachable freshWorld
  /\ Forall (fun s => premiumOnly s = true -> contactInfo s = sentinel)
       (default []
          (resp_data
             (responseOf
                (search (envOf 1000 [plumberB] 12 emptyAnswer)
                   (anonymous "plumber" VUndefined) freshWorld)))).
Proof.
  split; [apply reach_start|].
  apply List.Forall_forall. intros s Hin Hp.
  apply (proj1 (premium_contact_redacted freshWorld
                  (envOf 1000 [plumberB] 12 emptyAnswer)
                  (anonymous "plumber" VUndefined) (reach_start ∅))
           (default []
              (resp_data
                 (responseOf
                    (search (envOf 1000 [plumberB] 12 emptyAnswer)
                       (anonymous "plumber" VUndefined) freshWorld)))) s);
    [reflexivity | exact Hin | exact Hp].
Defined.

Example anonymous_page_contacts :
  option_map (map contactInfo)
    (resp_data
       (responseOf
          (search (envOf 1000 [plumberA; plumberB] 12 emptyAnswer)
             (anonymous "plumber" VUndefined) freshWorld)))
  = Some [lit "555-0101"; sentinel].
Proof. vm_compute. reflexivity. Qed.

(** Two local matches and five candidates that resolve to five records
    of their own: the answer counts seven. *)
Example merged_total_is_seven :
  option_map pg_total
    (resp_meta (responseOf (search envMerge (anonymous "plumber" VUndefined) freshWorld)))
  = Some 7.
Proof. vm_compute. reflexivity. Qed.

(** When the candidates name their category, the loop body evaluates
    the unbound name [mongoose]; every candidate is skipped and logged,
    and the answer counts the two local records. *)
Example named_candidates_are_skipped :
  let r := search envNamed (anonymous "plumber" VUndefined) freshWorld in
  option_map pg_total (resp_meta (responseOf r)) = Some 2
  /\ length (errorLog (worldOf r)) = 5.
Proof. vm_compute. split; reflexivity. Qed.

(** Keys of searches that differ in more than the page and the limit
    can coincide: a bar in a filter value reads like the bar between
    two entries. *)
Example filter_values_can_forge_entries :
  searchCacheKey
    (mkParams (lit "ab") (VStr (lit "c")) (VStr (lit "d|limit:20"))
       VUndefined 1 7)
  = searchCacheKey
      (mkParams (lit "ab") (VStr (lit "c|limit:7|location:d")) VUndefined
         VUndefined 1 20).
Proof. vm_compute. reflexivity. Qed.

(** The zero-record answer of the remote service keeps the local page. *)
Example remote_without_records :
  responseOf
    (search (envOf 1000 [plumberA] 1 emptyAnswer)
       (anonymous "plumber" VUndefined) freshWorld)
  = paginated [plumberA] 1 20 1 Obtained.
Proof. vm_compute. reflexivity. Qed.

(** * Further properties of the cache store *)

Section StoreRoundTrips.
Context {V : Type}.
Import CacheService.


Lemma set_cache_ttl (t0 : Z) (key : str) (x : V) (ttl : option nat) (s : service V) :
  cache (snd (set t0 key (Some x) ttl s))
  = <[key := mkEntry x (t0 + Z.of_nat (lifetimeOf key ttl) * 1000)%Z]> (cache s).
Proof. destruct ttl as [[|n]|]; reflexivity. Qed.

Lemma lifetimeOf_positive (key : str) (ttl : option nat) : 1 <= lifetimeOf key ttl.
Proof.
  assert (Hd : 1 <= getCacheTTLForKey key).
  { unfold getCacheTTLForKey.
    repeat match goal with |- context [if ?b then _ else _] => destruct b end;
      cbv; lia. }
  destruct ttl as [[|n]|]; cbn [lifetimeOf]; lia.
Qed.

(** Property X1.  A value stored with [set] is read back by [get] at every
    time up to the end of its lifetime (the [ttl] argument when it is a
    positive number, else the default of the key's namespace, counted in
    seconds from the time of the [set]): [set] answers true, [get]
    returns the stored value and leaves the store as it is, and the
    counters show one more set and one more hit. *)
Theorem set_then_get_within_lifetime (t0 t1 : Z) (key : str) (x : V)
    (ttl : option nat) (s : service V) :
  (t1 <= t0 + Z.of_nat (lifetimeOf key ttl) * 1000)%Z ->
  let s1 := snd (set t0 key (Some x) ttl s) in
  fst (set t0 key (Some x) ttl s) = true
  /\ fst (get t1 key s1) = Some x
  /\ cache (snd (get t1 key s1)) = cache s1
  /\ stats (snd (get t1 key s1))
     = mkCounters (S (hits (stats s))) (misses (stats s)) (S (sets (stats s))).
Proof.
  intros Ht s1. split; [reflexivity|].
  assert (Hk : cache s1 !! key
               = Some (mkEntry x (t0 + Z.of_nat (lifetimeOf key ttl) * 1000)%Z)).
  { unfold s1. rewrite set_cache_ttl. apply lookup_insert_eq. }
  rewrite (get_live t1 key s1 _ Hk) by exact Ht.
  cbn [fst snd cache stats v]. repeat split.
Qed.

(** Property X2.  Once the lifetime of an entry is over, [get] returns
    nothing for its key, the entry is removed from the store, and the
    read counts as a miss (the clock is not negative, so that no
    expiry time is 0, which stands for an entry that never expires). *)
Theorem get_after_expiry (t0 t1 : Z) (key : str) (x : V) (ttl : option nat)
    (s : service V) :
  (0 <= t0)%Z ->
  (t0 + Z.of_nat (lifetimeOf key ttl) * 1000 < t1)%Z ->
  let s1 := snd (set t0 key (Some x) ttl s) in
  fst (get t1 key s1) = None
  /\ cache (snd (get t1 key s1)) = delete key (cache s)
  /\ stats (snd (get t1 key s1))
     = mkCounters (hits (stats s)) (S (misses (stats s))) (S (sets (stats s))).
Proof.
  intros H0 Ht s1. pose proof (lifetimeOf_positive key ttl) as Hl.
  unfold get, nodeGet, s1. rewrite set_cache_ttl, lookup_insert_eq. cbn [t v].
  replace (t0 + Z.of_nat (lifetimeOf key ttl) * 1000 =? 0)%Z with false
    by (symmetry; apply Z.eqb_neq; lia).
  replace (t0 + Z.of_nat (lifetimeOf key ttl) * 1000 <? t1)%Z with true
    by (symmetry; apply Z.ltb_lt; lia).
  cbn [negb andb fst snd cache stats].
  repeat split. apply delete_insert_eq.
Qed.

Lemma delete_cache (key : str) (s : service V) :
  cache (snd (delete_ key s)) = delete key (cache s).
Proof.
  unfold delete_, nodeDel. destruct (cache s !! key) eqn:E; cbn [snd cache];
    [reflexivity|]. now rewrite delete_id.
Qed.

(** Property X3.  [delete] answers 1 when the key was in the store and
    0 when it was not, removes the entry and nothing else, leaves the
    counters alone, and afterwards a [get] of the key misses and a
    second [delete] answers 0. *)
Theorem delete_then_get (now : Z) (key : str) (s : service V) :
  fst (delete_ key s) = match cache s !! key with Some _ => 1 | None => 0 end
  /\ cache (snd (delete_ key s)) = delete key (cache s)
  /\ stats (snd (delete_ key s)) = stats s
  /\ fst (get now key (snd (delete_ key s))) = None
  /\ fst (delete_ key (snd (delete_ key s))) = 0.
Proof.
  pose proof (delete_cache key s) as Hc.
  repeat split.
  - unfold delete_, nodeDel. destruct (cache s !! key); reflexivity.
  - exact Hc.
  - unfold delete_, nodeDel. destruct (cache s !! key); reflexivity.
  - unfold get, nodeGet. rewrite Hc, lookup_delete_eq. reflexivity.
  - unfold delete_ at 1, nodeDel. rewrite Hc, lookup_delete_eq. reflexivity.
Qed.

End StoreRoundTrips.

(** * Further properties of pattern invalidation *)

Section InvalidationCount.
Context {V : Type}.
Import CacheService.

Lemma invalidate_fold_size (ks : list str) (n : nat) (d : gmap str (entry V)) :
  NoDup ks -> (forall k, k ∈ ks -> is_Some (d !! k)) ->
  let r := fold_left (fun a key => (S (fst a), snd (nodeDel key (snd a))))
             ks (n, d) in
  size d = length ks + size (snd r) /\ snd r ⊆ d.
Proof.
  revert n d. induction ks as [|x ks IH]; intros n d Hnd Hin; cbn [fold_left].
  - split; [reflexivity|]. reflexivity.
  - apply NoDup_cons in Hnd as [Hx Hnd].
    destruct (Hin x) as [en Hen]; [left|].
    assert (Hd : snd (nodeDel x d) = delete x d)
      by (unfold nodeDel; now rewrite Hen).
    cbn [fst snd]. rewrite Hd.
    destruct (IH (S n) (delete x d) Hnd) as [Hs Hsub].
    { intros k Hk. rewrite lookup_delete_ne; [apply Hin; now right|].
      intros ->. contradiction. }
    split.
    + cbn [length]. assert (Hsz : size (delete x d) = pred (size d))
        by (apply map_size_delete_Some; eauto).
      assert (size d <> 0) by (intros H0; apply map_size_empty_iff in H0; subst d;
                               now rewrite lookup_empty in Hen).
      lia.
    + etrans; [exact Hsub|]. apply delete_subseteq.
Qed.

Lemma invalidatePattern_matching (pattern : str) (s : service V) :
  invalidatePattern pattern s
  = (fun regex => invalidateMatching (RegExp.test regex) s)
      <$> RegExp.compile (replaceFirst "*"%char (lit ".*") pattern).
Proof.
  unfold invalidatePattern, invalidateMatching.
  destruct (RegExp.compile _) as [regex|]; [|reflexivity].
  cbn [fmap option_fmap option_map]. now destruct (fold_left _ _ _).
Qed.

(** Property X5.  Whatever regular expression the pattern stands for,
    the count [invalidatePattern] returns is the number of entries that
    left the store: the keys the expression matches are removed, and
    they are the ones counted; the store shrinks by exactly that many
    entries, every other entry stays as it is, and the counters are
    untouched. *)
Theorem invalidatePattern_count (test : str -> bool) (s : service V) :
  let r := invalidateMatching test s in
  fst r = length (List.filter test (keys (cache s)))
  /\ size (cache s) = fst r + size (cache (snd r))
  /\ (forall k, cache (snd r) !! k = if test k then None else cache s !! k)
  /\ cache (snd r) ⊆ cache s
  /\ stats (snd r) = stats s.
Proof.
  unfold invalidateMatching.
  set (ks := List.filter test (keys (cache s))).
  assert (Hnd : NoDup ks).
  { unfold ks, keys. apply NoDup_ListNoDup, List.NoDup_filter, NoDup_ListNoDup.
    apply NoDup_fst_map_to_list. }
  assert (Hin : forall k, k ∈ ks -> is_Some (cache s !! k)).
  { intros k Hk. apply list_elem_of_In, List.filter_In in Hk as [Hk _].
    unfold keys in Hk. apply list_elem_of_In, list_elem_of_fmap in Hk as ([k' en] & -> & Hk).
    apply elem_of_map_to_list in Hk. eauto. }
  destruct (invalidate_fold_size ks 0 (cache s) Hnd Hin) as [Hs Hsub].
  destruct (invalidate_fold ks 0 (cache s)) as [Hn Hk].
  destruct (fold_left _ ks (0, cache s)) as [c d]. cbn [fst snd cache stats] in *.
  split; [exact Hn|]. split; [lia|]. split; [|split; [exact Hsub|reflexivity]].
  intros k. rewrite Hk. destruct (known ks k) eqn:E.
  - apply known_true in E. apply List.filter_In in E as [_ E]. now rewrite E.
  - destruct (test k) eqn:Et; [|reflexivity].
    destruct (cache s !! k) as [en|] eqn:El; [|reflexivity].
    assert (Hkn : known ks k = true); [|congruence].
    apply existsb_exists. exists k. split; [|now apply bool_decide_eq_true].
    apply List.filter_In. split; [|exact Et].
    unfold keys. apply in_map_iff. exists (k, en). split; [reflexivity|].
    apply list_elem_of_In, elem_of_map_to_list. exact El.
Qed.

(** The lookups after a literal followed by a star. *)
Lemma literal_star_lookup (p : str) (s : service V) :
  forallb plain p = true ->
  exists n s',
    invalidatePattern (p ++ lit "*") s = Some (n, s')
    /\ forall k, includes k p = true -> cache s' !! k = None.
Proof.
  intros Hp. unfold invalidatePattern.
  rewrite (replaceFirst_literal_star p Hp), (compile_literal_star p Hp).
  set (ks := List.filter _ (keys (cache s))).
  destruct (invalidate_fold ks 0 (cache s)) as [Hn Hk].
  destruct (fold_left _ ks (0, cache s)) as [n d]. cbn [fst snd] in *.
  exists n, (mkService d (stats s)). split; [reflexivity|].
  intros k Hi. cbn [cache]. rewrite Hk.
  destruct (known ks k) eqn:E; [reflexivity|].
  destruct (cache s !! k) as [en|] eqn:El; [|reflexivity].
  assert (Ht : known ks k = true); [|congruence].
  apply existsb_exists. exists k. split; [|now apply bool_decide_eq_true].
  apply List.filter_In. split; [|now rewrite test_includes].
  unfold keys. apply in_map_iff. exists (k, en). split; [reflexivity|].
  apply list_elem_of_In, elem_of_map_to_list. exact El.
Qed.

Lemma startsWith_app (p r : str) : startsWith (p ++ r) p = true.
Proof.
  induction p as [|c p IH]; [reflexivity|].
  cbn [app startsWith]. now rewrite Ascii.eqb_refl, IH.
Qed.

Lemma includes_app (p r : str) : includes (p ++ r) p = true.
Proof. apply startsWith_includes, startsWith_app. Qed.

Lemma forallb_plain_app (a b : str) :
  forallb plain a = true -> forallb plain b = true -> forallb plain (a ++ b) = true.
Proof. intros Ha Hb. now rewrite forallb_app, Ha, Hb. Qed.

(** Property X6.  The patterns the controllers
    invalidate with cover the keys the builders make: for a non-empty
    identifier without regular-expression syntax characters, after
    "services:category:<id>:*" no listing page of that category is left,
    whatever its page and limit; after "user:<id>:*" no entry of that
    user is left; after "categories:*" no category entry is left. *)
Theorem controller_patterns_cover_their_keys (ident : str) (s : service V) :
  forallb plain ident = true -> ident <> [] ->
  (exists n s',
      invalidatePattern (lit "services:category:" ++ ident ++ lit ":*") s = Some (n, s')
      /\ forall page limit,
           cache s' !! getServicesKey None (Some ident) page limit = None)
  /\ (exists n s',
        invalidatePattern (lit "user:" ++ ident ++ lit ":*") s = Some (n, s')
        /\ forall type, cache s' !! getUserKey ident type = None)
  /\ (exists n s',
        invalidatePattern (lit "categories:*") s = Some (n, s')
        /\ forall categoryId, cache s' !! getCategoryKey categoryId = None).
Proof.
  intros Hp Hne. split; [|split].
  - destruct (literal_star_lookup (lit "services:category:" ++ ident ++ lit ":") s)
      as (n & s' & Hi & Hk).
    { repeat apply forallb_plain_app; auto. }
    exists n, s'. split.
    + rewrite <- Hi. f_equal. now rewrite <- !List.app_assoc.
    + intros page limit. apply Hk.
      destruct ident as [|c r]; [congruence|]. cbn [getServicesKey].
      replace (lit "services:category:" ++ (c :: r) ++ lit ":page:" ++ decimal page
                 ++ lit ":limit:" ++ decimal limit)
        with ((lit "services:category:" ++ (c :: r) ++ lit ":")
                ++ lit "page:" ++ decimal page ++ lit ":limit:" ++ decimal limit)
        by (now rewrite <- !List.app_assoc).
      apply includes_app.
  - destruct (literal_star_lookup (lit "user:" ++ ident ++ lit ":") s)
      as (n & s' & Hi & Hk).
    { repeat apply forallb_plain_app; auto. }
    exists n, s'. split.
    + rewrite <- Hi. f_equal. now rewrite <- !List.app_assoc.
    + intros type. apply Hk. unfold getUserKey.
      replace (lit "user:" ++ ident ++ lit ":" ++ type)
        with ((lit "user:" ++ ident ++ lit ":") ++ type)
        by (now rewrite <- !List.app_assoc).
      apply includes_app.
  - destruct (literal_star_lookup (lit "categories:") s) as (n & s' & Hi & Hk);
      [reflexivity|].
    exists n, s'. split; [exact Hi|].
    intros categoryId. apply Hk. unfold getCategoryKey. apply includes_app.
Qed.

End InvalidationCount.

(** * Further properties of the remote client *)

Section ClientRuns.
Context {D : Type}.
Import PythonApi.

(** Property X9.  A call that starts from a request
    configuration without [_retryCount], as [client.post] makes it, is
    sent exactly once whatever the failure and whatever [maxRetries]:
    [undefined < maxRetries] is false, so the interceptor never retries
    and the call settles as its first request did. *)
Theorem calls_without_counter_are_sent_once (mr : nat) (tr : nat -> outcome D) :
  apiClient mr tr freshConfig = Some (mkRun (tr 0) 1 [] 0)
  /\ post mr tr = tr 0.
Proof.
  assert (H : apiClient mr tr freshConfig = Some (mkRun (tr 0) 1 [] 0)).
  { unfold apiClient, freshConfig. cbn [request].
    destruct (tr 0) as [r|e]; [reflexivity|].
    unfold shouldRetry. cbn [_retryCount retryCountBelow].
    now rewrite andb_false_r. }
  split; [exact H|]. unfold post. now rewrite H.
Qed.

(** Property X10.  When the configuration carries a counter
    [c] below [maxRetries] and the first request fails with a timeout or
    without a response, the client waits 2^(c+1) seconds, sends the
    request a second time with the counter at c+1, and settles as that
    second request does, whatever its outcome: two requests, one
    retry. *)
Theorem counted_call_is_retried_once (mr c : nat) (tr : nat -> outcome D)
    (e : axiosError D) :
  c < mr ->
  tr 0 = Rejected e ->
  isECONNABORTED e || noResponse e = true ->
  error_config e = true ->
  apiClient mr tr (mkConfig false (Some c))
  = Some (mkRun (tr 1) 2 [mkRetry e (c + 1) (2 ^ (c + 1) * 1000)] 1).
Proof.
  intros Hc H0 He Hcfg. unfold apiClient.
  destruct mr as [|mr]; [lia|].
  assert (Hs : shouldRetry (S mr) e (mkConfig false (Some c)) = true).
  { unfold shouldRetry. rewrite He, Hcfg.
    cbn [_retry _retryCount retryCountBelow negb andb].
    now apply Nat.ltb_lt. }
  change (request (S (S mr)) (S mr) tr 0 (mkConfig false (Some c)))
    with (match tr 0 with
          | Fulfilled r => Some (mkRun (Fulfilled r) 1 [] 0)
          | Rejected e =>
              if shouldRetry (S mr) e (mkConfig false (Some c)) then
                match request (S mr) (S mr) tr 1 (mkConfig true (Some (c + 1))) with
                | Some r =>
                    Some (mkRun (final r) (S (attempts r))
                            (mkRetry e (c + 1) (backoffDelay (c + 1)) :: retries r)
                            (S (flagsSet r)))
                | None => None
                end
              else Some (mkRun (Rejected e) 1 [] 0)
          end).
  rewrite H0, Hs, request_flagged by reflexivity. reflexivity.
Qed.

(** A request that is answered with an error response (not a timeout) is
    never sent again. *)
Lemma error_responses_are_not_retried (mr : nat) (tr : nat -> outcome D)
    (cfg : requestConfig) (e : axiosError D) :
  tr 0 = Rejected e ->
  specApplicationError e = true ->
  apiClient mr tr cfg = Some (mkRun (Rejected e) 1 [] 0).
Proof.
  intros H0 He. unfold apiClient. cbn [request]. rewrite H0.
  unfold specApplicationError in He. apply andb_prop in He as [H1 H2].
  unfold shouldRetry.
  destruct (isECONNABORTED e); [discriminate|].
  destruct (noResponse e); [discriminate|]. reflexivity.
Qed.

End ClientRuns.

(** Property X10 at a concrete input. *)
Lemma counted_call_is_retried_once_witness :
  let e := PythonApi.mkError (D := unit) None None true in
  let tr := fun n : nat =>
              match n with
              | 0 => PythonApi.Rejected e
              | _ => PythonApi.Fulfilled (PythonApi.mkResponse 200 tt)
              end in
  PythonApi.apiClient 3 tr (PythonApi.mkConfig false (Some 1))
  = Some (PythonApi.mkRun (tr 1) 2 [PythonApi.mkRetry e 2 4000] 1).
Proof.
  intros e tr.
  exact (counted_call_is_retried_once 3 1 tr e
           (le_S _ _ (le_n 2)) eq_refl eq_refl eq_refl).
Defined.

(** * Further properties of the remote search service *)

(** Property X11.  [customSearch] returns a result exactly when the
    first request is answered with status 200 and a body that is not
    [null]; the result is then flagged successful and holds the records
    of the answer (none when the body has no [results]).  In every
    other case (the request is rejected, the status is another one, the
    body is [null]) it throws.  On the answers with an object for a body
    it is the [customSearch] the search controller is modelled with. *)
Theorem customSearch_reads_one_answer (mr : nat)
    (tr : nat -> PythonApi.outcome RawPythonApiService.body)
    (r : PythonApiService.searchResult) :
  (RawPythonApiService.customSearch (PythonApi.post mr tr) = Some r <->
   exists resp results,
     tr 0 = PythonApi.Fulfilled resp
     /\ PythonApi.status resp = 200
     /\ PythonApi.data resp = RawPythonApiService.BodyObject results
     /\ r = PythonApiService.mkSearchResult true (default [] results))
  /\ forall settled,
       RawPythonApiService.customSearch
         (RawPythonApiService.withObjectBody settled)
       = PythonApiService.customSearch settled.
Proof.
  split.
  - rewrite post_settles. unfold RawPythonApiService.customSearch. split.
    + destruct (tr 0) as [resp|e]; [|discriminate].
      destruct (PythonApi.status resp =? 200) eqn:E; [|discriminate].
      destruct (PythonApi.data resp) as [|results] eqn:Ed; [discriminate|].
      intros [= <-]. exists resp, results. apply Nat.eqb_eq in E. auto.
    + intros (resp & results & -> & Hs & Hd & ->). now rewrite Hs, Hd.
  - intros [resp|e]; [|reflexivity].
    cbn. now destruct (PythonApi.status resp =? 200).
Qed.

(** * Lifetimes by namespace, and clearing *)

Section Lifetimes.
Import CacheService.

(** Property X7.  Every key made by a
    key builder gets the default lifetime of its own namespace: 300
    seconds for a search key, 1800 for a services key, 3600 for a
    categories key and 60 for a user key, whatever the query, filters
    and identifiers are. *)
Theorem builder_keys_take_the_lifetime_of_their_namespace :
  (forall q fs, getCacheTTLForKey (getSearchKey q fs) = 300)
  /\ (forall sid cid pg lm, getCacheTTLForKey (getServicesKey sid cid pg lm) = 1800)
  /\ (forall cid, getCacheTTLForKey (getCategoryKey cid) = 3600)
  /\ (forall uid type, getCacheTTLForKey (getUserKey uid type) = 60).
Proof.
  repeat split.
  - intros sid cid pg lm. unfold getServicesKey.
    destruct sid as [[|? ?]|], cid as [[|? ?]|]; reflexivity.
Qed.

(** [clear] empties the store and keeps the counters. *)
Lemma clear_empties_the_store {V : Type} (now : Z) (key : str) (s : service V) :
  let s1 := snd (clear s) in
  fst (clear s) = true
  /\ keys (cache s1) = []
  /\ stats s1 = stats s
  /\ fst (get now key s1) = None
  /\ fst (delete_ key s1) = 0
  /\ (fst <$> invalidatePattern (lit "*") s1) = Some 0.
Proof.
  intros s1. unfold s1, clear, keys, get, nodeGet, delete_, nodeDel, invalidatePattern.
  cbn [fst snd cache stats]. rewrite map_to_list_empty, lookup_empty.
  repeat split.
Qed.

End Lifetimes.

(** Property X1 at a concrete input. *)
Lemma set_then_get_within_lifetime_witness :
  let s1 := snd (CacheService.set 1000 (lit "user:u1:profile") (Some 7) None
                   CacheService.empty) in
  fst (CacheService.get 61000 (lit "user:u1:profile") s1) = Some 7.
Proof.
  intros s1.
  exact (proj1 (proj2 (set_then_get_within_lifetime 1000 61000
                         (lit "user:u1:profile") 7 None CacheService.empty
                         ltac:(vm_compute; discriminate)))).
Defined.

(** Property X2 at a concrete input. *)
Lemma get_after_expiry_witness :
  let s1 := snd (CacheService.set 1000 (lit "user:u1:profile") (Some 7) None
                   CacheService.empty) in
  fst (CacheService.get 61001 (lit "user:u1:profile") s1) = None.
Proof.
  intros s1.
  exact (proj1 (get_after_expiry 1000 61001 (lit "user:u1:profile") 7 None
                  CacheService.empty ltac:(vm_compute; discriminate)
                  ltac:(vm_compute; reflexivity))).
Defined.

(** Property X6 at a concrete input. *)
Lemma controller_patterns_cover_their_keys_witness :
  exists n s',
    CacheService.invalidatePattern (lit "services:category:42:*") twoPages
    = Some (n, s')
    /\ CacheService.cache s' !! listingKey = None.
Proof.
  destruct (controller_patterns_cover_their_keys (lit "42") twoPages
              ltac:(reflexivity) ltac:(discriminate))
    as ((n & s' & Hi & Hk) & _).
  exists n, s'. split; [exact Hi | exact (Hk 1 20)].
Defined.

(** Property X4 at a concrete input. *)
Lemma invalidatePattern_literal_star_witness :
  exists n s',
    CacheService.invalidatePattern (lit "services:category:42:*") twoPages
    = Some (n, s')
    /\ n = 2
    /\ CacheService.cache s' !! searchedKey = None.
Proof.
  destruct (invalidatePattern_literal_star (lit "services:category:42:") twoPages
              ltac:(reflexivity))
    as (n & s' & Hi & Hn & _ & Hk).
  exists n, s'. split; [exact Hi|]. split; [exact Hn | exact (Hk searchedKey)].
Defined.

(** * The history of a user *)

(** Property X12.  [addRecentSearch] puts the new
    search first and keeps at most the nine most recent ones of the old
    history behind it, so the history never holds more than ten
    searches; the other fields of the user are unchanged. *)
Theorem addRecentSearch_keeps_the_ten_latest (q : str) (time : Z) (u : User.user) :
  let u' := User.addRecentSearch q time u in
  User.recentSearches u'
  = User.mkRecentSearch q time :: firstn 9 (User.recentSearches u)
  /\ length (User.recentSearches u')
     = Nat.min 10 (S (length (User.recentSearches u)))
  /\ User.verified u' = User.verified u
  /\ User.paidServices u' = User.paidServices u.
Proof.
  intros u'. unfold u'. rewrite addRecentSearch_firstn.
  split; [reflexivity|]. split; [|split; reflexivity].
  rewrite length_firstn. reflexivity.
Qed.

(** * The page metadata *)

Lemma ceilDiv_le (total lm n : nat) :
  1 <= lm -> (ceilDiv total lm <= n <-> total <= n * lm).
Proof.
  intros Hl. unfold ceilDiv.
  pose proof (Nat.div_mod_eq (total + lm - 1) lm) as Hd.
  pose proof (Nat.mod_upper_bound (total + lm - 1) lm ltac:(lia)) as Hm.
  split; intros H; nia.
Qed.

(** Property X13.  For a limit of at least 1, the page metadata of
    [paginated] gives as [totalPages] the least number of pages of that
    limit that hold [total] records, [hasNextPage] exactly when records
    remain after the given page, and [hasPrevPage] exactly when the
    page is above 1. *)
Theorem paginated_meta (d : list service) (pg lm total : nat) (m : message) :
  1 <= lm ->
  exists meta,
    resp_meta (paginated d pg lm total m) = Some meta
    /\ (forall n, pg_totalPages meta <= n <-> total <= n * lm)
    /\ (pg_hasNextPage meta = true <-> pg * lm < total)
    /\ (pg_hasPrevPage meta = true <-> 1 < pg)
    /\ pg_page meta = pg /\ pg_limit meta = lm /\ pg_total meta = total.
Proof.
  intros Hl. eexists. split; [reflexivity|].
  cbn [pg_totalPages pg_hasNextPage pg_hasPrevPage pg_page pg_limit pg_total].
  split; [intros n; now apply ceilDiv_le|].
  split; [|split; [apply Nat.ltb_lt|repeat split]].
  rewrite Nat.ltb_lt. pose proof (ceilDiv_le total lm pg Hl). lia.
Qed.

(** Property X13 at a concrete input. *)
Lemma paginated_meta_witness :
  exists meta,
    resp_meta (paginated [plumberA] 2 20 41 Obtained) = Some meta
    /\ pg_hasNextPage meta = true.
Proof.
  destruct (paginated_meta [plumberA] 2 20 41 Obtained ltac:(lia))
    as (meta & Hm & _ & Hn & _).
  exists meta. split; [exact Hm|]. apply Hn. lia.
Defined.

(** * How a search ends *)

Section Endings.

(** Property X14.  A search whose query is shorter than
    2 or longer than 100 code units, whose page or limit is 0, or whose
    limit is above 50, is answered with the validation error (status
    400) before anything else happens: cache, counters, users and log
    stay as they were and no remote call is made, whatever the
    collaborators would answer. *)
Theorem out_of_range_requests_are_refused (e : env) (req : request) (w : world) :
  let b := req_body req in
  length (b_query b) < 2 \/ 100 < length (b_query b)
  \/ b_page b = Some 0 \/ b_limit b = Some 0
  \/ 50 < default 20 (b_limit b) ->
  search e req w = (validationError, w, mkTrace 0 false).
Proof.
  intros b H. unfold search.
  assert (Hv : validate b = None); [|fold b; now rewrite Hv].
  unfold validate.
  destruct H as [H|[H|[H|[H|H]]]].
  - apply Nat.leb_gt in H. now rewrite H.
  - apply Nat.leb_gt in H. now rewrite H, andb_false_r.
  - rewrite H. cbn [default Nat.leb]. now rewrite !andb_false_r.
  - rewrite H. cbn [default Nat.leb]. now rewrite !andb_false_r.
  - apply Nat.leb_gt in H. now rewrite H, !andb_false_r.
Qed.

(** Property X15.  Every search that is not answered
    with status 400 had a query of 2 to 100 code units, a page of at
    least 1, a limit between 1 and 50 (with the defaults 1 and 20
    standing in for missing values), and no number as category,
    location or price. *)
Theorem answered_searches_are_within_bounds (e : env) (req : request) (w : world) :
  statusCode (responseOf (search e req w)) <> 400 ->
  let b := req_body req in
  2 <= length (b_query b) <= 100
  /\ 1 <= default 1 (b_page b)
  /\ 1 <= default 20 (b_limit b) <= 50
  /\ (forall n, b_category b <> VNum n)
  /\ (forall n, b_location b <> VNum n)
  /\ (forall n, b_price b <> VNum n).
Proof.
  intros Hs b.
  destruct (validate b) as [p|] eqn:Hv.
  - revert Hv. unfold validate.
    destruct (2 <=? length (b_query b)) eqn:E1; [|discriminate].
    destruct (length (b_query b) <=? 100) eqn:E2; [|discriminate].
    destruct (stringOrNull (b_category b)) eqn:E3; [|discriminate].
    destruct (stringOrNull (b_location b)) eqn:E4; [|discriminate].
    destruct (validPrice (b_price b)) eqn:E5; [|discriminate].
    destruct (1 <=? default 1 (b_page b)) eqn:E6; [|discriminate].
    destruct (1 <=? default 20 (b_limit b)) eqn:E7; [|discriminate].
    destruct (default 20 (b_limit b) <=? 50) eqn:E8; [|discriminate].
    intros _. apply Nat.leb_le in E1, E2, E6, E7, E8.
    repeat split; auto; intros n Hn.
    + now rewrite Hn in E3.
    + now rewrite Hn in E4.
    + now rewrite Hn in E5.
  - exfalso. apply Hs. unfold search. fold b. now rewrite Hv.
Qed.

(** Property X16.  On a cache miss, when the query to the
    document store rejects, the search is answered with status 500, no
    remote call is made, and the outcome does not depend on the remote
    service. *)
Theorem store_failure_fails_search (e : env) (req : request) (w : world)
    (p : params) :
  validate (req_body req) = Some p ->
  fst (CacheService.get (now e) (searchCacheKey p) (cacheService w)) = None ->
  Service_find e (searchQueryOf (req_user req) p) = None ->
  responseOf (search e req w) = error 500 ProcessingFailed
  /\ remoteCalls (traceOf (search e req w)) = 0
  /\ forall mr tr, search (withRemote e mr tr) req w = search e req w.
Proof.
  intros Hv Hm Hf.
  assert (Hs : forall e', now e' = now e -> Service_find e' = Service_find e ->
             search e' req w
             = (error 500 ProcessingFailed,
                logError [ErrorSearch]
                  (mkWorld (snd (CacheService.get (now e) (searchCacheKey p) (cacheService w)))
                     (users w) (errorLog w)),
                mkTrace 0 false)).
  { intros e' Hn Hfind. unfold search. rewrite Hv, Hn.
    destruct (CacheService.get (now e) (searchCacheKey p) (cacheService w))
      as [[c|] cs]; [discriminate|].
    now rewrite Hfind, Hf. }
  repeat split.
  - now rewrite (Hs e).
  - now rewrite (Hs e).
  - intros mr tr. rewrite (Hs e), (Hs (withRemote e mr tr)); reflexivity.
Qed.

(** Property X18.  A search answered with status 500
    writes nothing to the cache: no entry is added or changed, the key
    of the search has no entry afterwards, the count of sets is
    unchanged, the users are unchanged, and the error is the newest
    entry of the log. *)
Theorem failed_searches_cache_nothing (e : env) (req : request) (w : world) :
  statusCode (responseOf (search e req w)) = 500 ->
  users (worldOf (search e req w)) = users w
  /\ errorLog (worldOf (search e req w)) = ErrorSearch :: errorLog w
  /\ CacheService.sets (CacheService.stats (cacheService (worldOf (search e req w))))
     = CacheService.sets (CacheService.stats (cacheService w))
  /\ (forall k en,
        CacheService.cache (cacheService (worldOf (search e req w))) !! k = Some en ->
        CacheService.cache (cacheService w) !! k = Some en)
  /\ exists p,
       validate (req_body req) = Some p
       /\ CacheService.cache (cacheService (worldOf (search e req w)))
            !! searchCacheKey p = None.
Proof.
  destruct (search_ending e req w) as [Hv|p c cs Hv Hg|p cs n Hv Hg|p cs d total m lg n Hv Hg];
    unfold responseOf, worldOf; cbn [fst snd]; try (simpl; discriminate).
  intros _. cbn [logError users errorLog cacheService app].
  assert (Hcs : cs = snd (CacheService.get (now e) (searchCacheKey p) (cacheService w)))
    by (now rewrite Hg).
  split; [reflexivity|]. split; [reflexivity|].
  split; [|split].
  - revert Hg. unfold CacheService.get.
    destruct (CacheService.nodeGet _ _ _) as [[x|] data]; intros [= <-]; reflexivity.
  - intros k en. rewrite Hcs. apply get_lookup.
  - exists p. split; [exact Hv|].
    revert Hg. unfold CacheService.get, CacheService.nodeGet.
    destruct (CacheService.cache (cacheService w) !! searchCacheKey p) as [en|] eqn:E.
    + destruct (negb _ && _); intros [= <-]. cbn [CacheService.cache].
      apply lookup_delete_eq.
    + intros [= <-]. exact E.
Qed.

(** Property X20.  A search answered from the
    cache has status 200 and the from-cache message, makes no remote
    call, leaves users, log and the entries of the store as they were,
    adds exactly one hit, and is the same whatever the document store,
    the remote service and the user store would have answered at that
    time. *)
Theorem answers_from_the_cache_touch_nothing_else (e : env) (req : request)
    (w : world) :
  cacheHit (traceOf (search e req w)) = true ->
  resp_message (responseOf (search e req w)) = FromCache
  /\ statusCode (responseOf (search e req w)) = 200
  /\ remoteCalls (traceOf (search e req w)) = 0
  /\ users (worldOf (search e req w)) = users w
  /\ errorLog (worldOf (search e req w)) = errorLog w
  /\ CacheService.cache (cacheService (worldOf (search e req w)))
     = CacheService.cache (cacheService w)
  /\ CacheService.hits (CacheService.stats (cacheService (worldOf (search e req w))))
     = S (CacheService.hits (CacheService.stats (cacheService w)))
  /\ forall e', now e' = now e -> search e' req w = search e req w.
Proof.
  intros Hh.
  assert (Hs : exists p c cs,
            validate (req_body req) = Some p
            /\ CacheService.get (now e) (searchCacheKey p) (cacheService w)
               = (Some c, cs)).
  { revert Hh. unfold search, traceOf.
    destruct (validate (req_body req)) as [p|]; [|discriminate].
    destruct (CacheService.get (now e) (searchCacheKey p) (cacheService w))
      as [[c|] cs] eqn:Hg; [eauto|].
    destruct (Service_find e _) as [[services total]|]; [|discriminate].
    destruct ((5 <=? length services) || (10 <=? total)); [discriminate|].
    destruct (PythonApiService.customSearch _) as [py|]; [|discriminate].
    destruct (PythonApiService.success py && _); [|discriminate].
    destruct (ingest e _ _); discriminate. }
  destruct Hs as (p & c & cs & Hv & Hg).
  assert (Hall : forall e', now e' = now e ->
              search e' req w
              = (paginated (rs_data c) (rs_page c) (rs_limit c) (rs_total c) FromCache,
                 mkWorld cs (users w) (errorLog w), mkTrace 0 true)).
  { intros e' Hn. unfold search. now rewrite Hv, Hn, Hg. }
  rewrite (Hall e eq_refl). unfold responseOf, worldOf, traceOf. cbn [fst snd].
  apply get_hit in Hg as (_ & Hc & Hhits).
  repeat split; auto.
Qed.

End Endings.


Section Callers.

(** Property X21.  The key of a search does not
    name the caller: after a search that missed the cache and was
    answered, the same request body sent next by any other caller
    (signed in or not, verified or not) within 300 seconds is answered
    from the cache with the same records and the same page metadata. *)
Theorem cached_pages_are_served_to_every_caller (e1 e2 : env) (b : body)
    (u1 u2 : option caller) (w : world) :
  let first := search e1 (mkRequest b u1) w in
  let second := search e2 (mkRequest b u2) (worldOf first) in
  cacheHit (traceOf first) = false ->
  statusCode (responseOf first) = 200 ->
  (now e2 <= now e1 + 300000)%Z ->
  cacheHit (traceOf second) = true
  /\ resp_data (responseOf second) = resp_data (responseOf first)
  /\ resp_meta (responseOf second) = resp_meta (responseOf first).
Proof.
  intros first second Hm Hs Ht.
  destruct (status_200_valid e1 (mkRequest b u1) w Hs) as [p Hv].
  destruct (search_miss_cached e1 (mkRequest b u1) w p Hv Hm Hs)
    as (d & total & m & Hr & Hc).
  fold first in Hr, Hc.
  unfold second.
  rewrite (search_hit e2 (mkRequest b u2) (worldOf first) p _ Hv Hc)
    by (cbn [CacheService.t]; lia).
  rewrite Hr. unfold responseOf, traceOf. cbn [fst snd CacheService.v].
  repeat split.
Qed.

End Callers.

(** Property X21 at a concrete input. *)
Lemma cached_pages_are_served_to_every_caller_witness :
  let first := search envTiered (signedIn "u1" "plumber") freshWorld in
  let second := search envTiered (anonymous "plumber" VUndefined) (worldOf first) in
  resp_data (responseOf second) = resp_data (responseOf first)
  /\ option_map (map premiumOnly) (resp_data (responseOf second))
     = Some [false; true].
Proof.
  intros first second. split.
  - exact (proj1 (proj2 (cached_pages_are_served_to_every_caller envTiered envTiered
                           (mkBody (lit "plumber") VUndefined VUndefined VUndefined None None)
                           (Some (mkCaller (lit "u1") true)) None freshWorld
                           ltac:(vm_compute; reflexivity)
                           ltac:(vm_compute; reflexivity)
                           ltac:(vm_compute; discriminate)))).
  - vm_compute. reflexivity.
Defined.

(** Property X14 at a concrete input. *)
Lemma out_of_range_requests_are_refused_witness :
  search envStoreDown
    (mkRequest (mkBody (lit "plumber") VUndefined VUndefined VUndefined None (Some 51))
       None) freshWorld
  = (validationError, freshWorld, mkTrace 0 false).
Proof.
  apply (out_of_range_requests_are_refused envStoreDown
           (mkRequest
              (mkBody (lit "plumber") VUndefined VUndefined VUndefined None (Some 51))
              None) freshWorld).
  right. right. right. right. cbn. lia.
Defined.

(** Property X15 at a concrete input. *)
Lemma answered_searches_are_within_bounds_witness :
  let b := req_body (anonymous "plumber" VUndefined) in
  2 <= length (b_query b) <= 100 /\ 1 <= default 20 (b_limit b) <= 50.
Proof.
  intros b.
  destruct (answered_searches_are_within_bounds
              (envOf 1000 [plumberA] 12 emptyAnswer)
              (anonymous "plumber" VUndefined) freshWorld
              ltac:(vm_compute; discriminate)) as (H1 & _ & H2 & _).
  split; [exact H1 | exact H2].
Defined.

(** Property X16 at a concrete input. *)
Lemma store_failure_fails_search_witness :
  responseOf (search envStoreDown (anonymous "plumber" VUndefined) freshWorld)
  = error 500 ProcessingFailed.
Proof.
  exact (proj1 (store_failure_fails_search envStoreDown
                  (anonymous "plumber" VUndefined) freshWorld
                  (mkParams (lit "plumber") VUndefined VUndefined VUndefined 1 20)
                  eq_refl eq_refl eq_refl)).
Defined.

(** Property X18 at a concrete input. *)
Lemma failed_searches_cache_nothing_witness :
  let r := search envStoreDown (signedIn "u1" "plumber") (worldWith "u1") in
  users (worldOf r) = users (worldWith "u1")
  /\ errorLog (worldOf r) = [ErrorSearch].
Proof.
  intros r.
  destruct (failed_searches_cache_nothing envStoreDown (signedIn "u1" "plumber")
              (worldWith "u1") ltac:(vm_compute; reflexivity)) as (H1 & H2 & _).
  split; [exact H1 | exact H2].
Defined.

(** Property X20 at a concrete input. *)
Lemma answers_from_the_cache_touch_nothing_else_witness :
  let e := envOf 1000 [plumberA] 12 emptyAnswer in
  let req := signedIn "u1" "plumber" in
  let first := worldOf (search e req (worldWith "u1")) in
  users (worldOf (search e req first)) = users first
  /\ remoteCalls (traceOf (search e req first)) = 0.
Proof.
  intros e req first.
  destruct (answers_from_the_cache_touch_nothing_else e req first
              ltac:(vm_compute; reflexivity)) as (_ & _ & H1 & H2 & _).
  split; [exact H2 | exact H1].
Defined.

(** Property X17 at a concrete input. *)
Lemma remote_failure_fails_search_witness :
  let e := envOf 1000 [plumberA] 1 (PythonApi.Rejected timeoutError) in
  responseOf (search e (anonymous "plumber" VUndefined) freshWorld)
  = error 500 ProcessingFailed
  /\ remoteCalls (traceOf (search e (anonymous "plumber" VUndefined) freshWorld)) = 1.
Proof.
  intros e.
  apply (remote_failure_fails_search e (anonymous "plumber" VUndefined) freshWorld
           (mkParams (lit "plumber") VUndefined VUndefined VUndefined 1 20)
           [plumberA] 1); try reflexivity; cbn; lia.
Defined.

(** Property X19 at a concrete input. *)
Lemma remote_empty_keeps_local_witness :
  let e := envOf 1000 [plumberA] 1 emptyAnswer in
  responseOf (search e (anonymous "plumber" VUndefined) freshWorld)
  = paginated [plumberA] 1 20 1 Obtained.
Proof.
  intros e.
  apply (remote_empty_keeps_local e (anonymous "plumber" VUndefined) freshWorld
           (mkParams (lit "plumber") VUndefined VUndefined VUndefined 1 20)
           [plumberA] 1 (PythonApi.mkResponse 200 (Some [])));
    try reflexivity; cbn; lia.
Defined.

(** Property X22 at a concrete input. *)
Lemma search_miss_records_witness :
  let e := envOf 1000 [plumberA] 12 emptyAnswer in
  users (worldOf (search e (signedIn "u1" "plumber") (worldWith "u1"))) !! lit "u1"
  = Some (User.mkUser true [] [User.mkRecentSearch (lit "plumber") 1000]).
Proof.
  intros e.
  apply (search_miss_records e (signedIn "u1" "plumber") (worldWith "u1")
           (mkParams (lit "plumber") VUndefined VUndefined VUndefined 1 20)
           (mkCaller (lit "u1") true) (User.mkUser true [] []));
    try reflexivity; try (vm_compute; reflexivity); discriminate.
Defined.

(** * Taking in the remote candidates *)



Lemma ingest_fold_named (e : env) (categoryParam : value)
    (l : list PythonApiService.candidate) (i : nat)
    (news : list service) (lg : list logEntry) :
  Forall namesCategory l ->
  fold_left (ingestOne e categoryParam) (indexed i l) (news, lg)
  = (news, rev (map ErrorSaveScraped (seq i (length l))) ++ lg).
Proof.
  revert i lg. induction l as [|c l IH]; intros i lg Hl; [reflexivity|].
  apply List.Forall_cons_iff in Hl as [(s & Hc & Hs) Hl].
  cbn [indexed fold_left length seq map rev].
  replace (ingestOne e categoryParam (news, lg) (i, c))
    with (news, ErrorSaveScraped i :: lg).
  - rewrite (IH (S i) _ Hl), <- List.app_assoc. reflexivity.
  - unfold ingestOne. rewrite Hc. destruct s; [congruence|reflexivity].
Qed.

Section Ingest.
Variable e : env.
Variable categoryParam : value.

Lemma ingest_fold (l : list PythonApiService.candidate) (i : nat)
    (acc : list service * list logEntry) (P : service -> Prop) :
  (forall j c s, i <= j < i + length l -> nth_error l (j - i) = Some c ->
     foundFor e categoryParam j c s \/ builtFor e categoryParam j c s -> P s) ->
  Forall P (fst acc) ->
  Forall (fun x => exists j, x = ErrorSaveScraped j /\ j < i + length l) (snd acc) ->
  let r := fold_left (ingestOne e categoryParam) (indexed i l) acc in
  length (fst r) + length (snd r) = length (fst acc) + length (snd acc) + length l
  /\ Forall P (fst r)
  /\ Forall (fun x => exists j, x = ErrorSaveScraped j /\ j < i + length l) (snd r).
Proof.
  revert i acc. induction l as [|c l IH]; intros i [news lg] HP Hacc Hlog;
    cbn [indexed fold_left fst snd length] in *.
  - repeat split; auto.
  - assert (Hlog' : Forall (fun x => exists j, x = ErrorSaveScraped j
                                      /\ j < S i + length l) lg).
    { eapply List.Forall_impl; [|exact Hlog]. intros x (j & -> & Hj). exists j.
      split; [reflexivity|lia]. }
    assert (Hi : Forall (fun x => exists j, x = ErrorSaveScraped j
                                    /\ j < S i + length l)
                   (ErrorSaveScraped i :: lg)).
    { constructor; [exists i; split; [reflexivity|lia]|exact Hlog']. }
    assert (HP' : forall j c0 s, S i <= j < S i + length l ->
                   nth_error l (j - S i) = Some c0 ->
                   foundFor e categoryParam j c0 s \/ builtFor e categoryParam j c0 s -> P s).
    { intros j c0 s Hj Hn. apply (HP j c0 s); [lia|].
      replace (j - i) with (S (j - S i)) by lia. exact Hn. }
    assert (Hc : forall s, foundFor e categoryParam i c s \/ builtFor e categoryParam i c s -> P s).
    { intros s. apply (HP i c s); [lia|]. now rewrite Nat.sub_diag. }
    set (step := ingestOne e categoryParam (news, lg) (i, c)).
    assert (Hstep : length (fst step) + length (snd step)
                    = S (length news + length lg)
                    /\ Forall P (fst step)
                    /\ Forall (fun x => exists j, x = ErrorSaveScraped j
                                          /\ j < S i + length l) (snd step)).
    { unfold step, ingestOne.
      assert (Hskip : length (fst (news, ErrorSaveScraped i :: lg))
                      + length (snd (news, ErrorSaveScraped i :: lg))
                      = S (length news + length lg)
                      /\ Forall P (fst (news, ErrorSaveScraped i :: lg))
                      /\ Forall (fun x => exists j, x = ErrorSaveScraped j
                                            /\ j < S i + length l)
                           (snd (news, ErrorSaveScraped i :: lg))).
      { cbn [fst snd length]. repeat split; auto; lia. }
      assert (Hkeep : forall s, P s ->
                length (fst (news ++ [s], lg)) + length (snd (news ++ [s], lg))
                = S (length news + length lg)
                /\ Forall P (fst (news ++ [s], lg))
                /\ Forall (fun x => exists j, x = ErrorSaveScraped j
                                      /\ j < S i + length l)
                     (snd (news ++ [s], lg))).
      { intros s Hs. cbn [fst snd]. rewrite length_app. cbn [length].
        repeat split; auto; try lia. apply Forall_app. split; auto. }
      destruct (PythonApiService.r_category c) as [| |[|? ?]|];
        try exact Hskip;
        (destruct (Service_findOne e i c categoryParam) as [[s|]|] eqn:Ef;
         [apply Hkeep, Hc; now left| |exact Hskip];
         match goal with |- context [Service_save e i ?s] =>
           destruct (Service_save e i s) eqn:Es; [|exact Hskip];
           apply Hkeep, Hc; right; unfold builtFor;
           cbn [_id title category premiumOnly verified rating relevance
                contactInfo sourceUrl];
           repeat split; auto;
           [ destruct (PythonApiService.r_contactInfo c) as [[|? ?]|];
             discriminate
           | intros contact Hcontact Hne; rewrite Hcontact;
             destruct contact; [congruence|reflexivity] ]
         end). }
    destruct Hstep as (Hl & Hp1 & Hl1).
    destruct (IH (S i) step HP' Hp1 Hl1) as (H1 & H2 & H3).
    split; [rewrite H1; lia|]. split; [exact H2|].
    eapply List.Forall_impl; [|exact H3]. intros x (j & -> & Hj). exists j.
    split; [reflexivity|lia].
Qed.

(** Property X24.  The loop over the remote
    candidates accounts for every candidate: each one either yields one
    record or one logged error, so the records kept and the errors
    logged add up to the number of candidates, and every logged error
    carries the position of a candidate. *)
Theorem ingest_accounts_for_every_candidate (rs : list PythonApiService.candidate) :
  length (fst (ingest e categoryParam rs)) + length (snd (ingest e categoryParam rs))
  = length rs
  /\ Forall (fun x => exists j, x = ErrorSaveScraped j /\ j < length rs)
       (snd (ingest e categoryParam rs)).
Proof.
  destruct (ingest_fold rs 0 ([], []) (fun _ => True)) as (H1 & _ & H3);
    cbn [fst snd]; auto.
Qed.


(** Property X26.  When every remote candidate
    names its category with a non-empty string, the loop keeps no record
    and logs one error per candidate, whatever the store would answer:
    the loop body reads the unbound name [mongoose] before it reaches
    the store. *)
Theorem candidates_naming_a_category_are_dropped
    (rs : list PythonApiService.candidate) :
  Forall namesCategory rs ->
  fst (ingest e categoryParam rs) = []
  /\ length (snd (ingest e categoryParam rs)) = length rs
  /\ forall e' categoryParam',
       ingest e' categoryParam' rs = ingest e categoryParam rs.
Proof.
  intros H. unfold ingest.
  rewrite (ingest_fold_named e categoryParam rs 0 [] [] H).
  cbn [fst snd]. rewrite List.app_nil_r, length_rev, length_map, length_seq.
  repeat split. intros e' categoryParam'.
  now rewrite (ingest_fold_named e' categoryParam' rs 0 [] [] H), List.app_nil_r.
Qed.

End Ingest.

(** Property X26 at a concrete input. *)
Lemma candidates_naming_a_category_are_dropped_witness :
  fst (ingest envNamed VUndefined (map namedCandidateFor fiveNew)) = []
  /\ length (snd (ingest envNamed VUndefined (map namedCandidateFor fiveNew))) = 5.
Proof.
  destruct (candidates_naming_a_category_are_dropped envNamed VUndefined
              (map namedCandidateFor fiveNew)) as (H1 & H2 & _).
  - repeat constructor; exists (lit "Plumbing"); split; (reflexivity || discriminate).
  - split; [exact H1 | exact H2].
Defined.

(** * The merged list, whatever the inputs *)


Section MergedList.

Lemma known_In (seen : list str) (k : str) : In k seen -> known seen k = true.
Proof.
  intros H. apply existsb_exists. exists k. split; [exact H|].
  now apply bool_decide_eq_true.
Qed.

Lemma mapSet_keys (k : str) (x : service) (m : list (str * service)) :
  map fst (mapSet k x m)
  = if mapHas k m then map fst m else map fst m ++ [k].
Proof.
  induction m as [|[k' y] m IH]; cbn [mapSet mapHas map fst app]; [reflexivity|].
  destruct (bool_decide (k' = k)) eqn:E; cbn [orb map fst].
  - apply bool_decide_eq_true in E. now subst.
  - rewrite IH. now destruct (mapHas k m).
Qed.

Lemma mapSet_In_key (k k0 : str) (x : service) (m : list (str * service)) :
  In k (map fst (mapSet k0 x m)) <-> k = k0 \/ In k (map fst m).
Proof.
  rewrite mapSet_keys. destruct (mapHas k0 m) eqn:E.
  - rewrite mapHas_known in E. apply known_true in E. split; [auto|].
    intros [->|H]; auto.
  - rewrite in_app_iff. cbn [In]. split; [intros [H|[H|[]]]|intros [H|H]]; auto.
Qed.

Lemma mapSet_In_value (k0 : str) (x y : service) (m : list (str * service)) :
  In y (map snd (mapSet k0 x m)) -> y = x \/ In y (map snd m).
Proof.
  induction m as [|[k' z] m IH]; cbn [mapSet map snd In].
  - intros [H|[]]; auto.
  - destruct (bool_decide (k' = k0)); cbn [map snd In].
    + intros [H|H]; auto.
    + intros [H|H]; auto. apply IH in H as [H|H]; auto.
Qed.

Lemma mapSet_length (k : str) (x : service) (m : list (str * service)) :
  length (mapSet k x m) <= S (length m).
Proof.
  induction m as [|[k' y] m IH]; cbn [mapSet length]; [lia|].
  destruct (bool_decide (k' = k)); cbn [length]; lia.
Qed.

Lemma mapSet_keyedOnce (x : service) (m : list (str * service)) :
  keyedOnce m -> keyedOnce (mapSet (_id x) x m).
Proof.
  intros [Hn Hk]. split.
  - rewrite mapSet_keys. destruct (mapHas (_id x) m) eqn:E; [exact Hn|].
    apply NoDup_ListNoDup, NoDup_app. repeat split.
    + now apply NoDup_ListNoDup.
    + intros y Hy Hx. apply list_elem_of_In in Hy.
      apply list_elem_of_In in Hx as [<-|[]].
      rewrite mapHas_known, (known_In _ _ Hy) in E. discriminate.
    + apply NoDup_singleton.
  - clear Hn. induction m as [|[k' y] m IH]; cbn [mapSet].
    + constructor; [reflexivity|constructor].
    + apply List.Forall_cons_iff in Hk as [Hy Hk].
      destruct (bool_decide (k' = _id x)).
      * constructor; [reflexivity|exact Hk].
      * constructor; [exact Hy|exact (IH Hk)].
Qed.

(** The invariant of the two loops that fill the map. *)
Lemma combine_fold (l : list service) (conditional : bool)
    (m : list (str * service)) :
  keyedOnce m ->
  let r := fold_left
             (fun m s =>
                if conditional && mapHas (_id s) m then m
                else mapSet (_id s) s m) l m in
  keyedOnce r
  /\ (forall k, In k (map fst r) <-> In k (map fst m) \/ In k (map _id l))
  /\ (forall y, In y (map snd r) -> In y (map snd m) \/ In y l)
  /\ length r <= length m + length l.
Proof.
  revert m. induction l as [|s l IH]; intros m Hm; cbn [fold_left].
  - cbn [map In length]. split; [exact Hm|]. split; [intros k; tauto|].
    split; [auto|lia].
  - set (m1 := if conditional && mapHas (_id s) m then m else mapSet (_id s) s m).
    assert (H1 : keyedOnce m1
                 /\ (forall k, In k (map fst m1) <-> k = _id s \/ In k (map fst m))
                 /\ (forall y, In y (map snd m1) -> y = s \/ In y (map snd m))
                 /\ length m1 <= S (length m)).
    { unfold m1. destruct (conditional && mapHas (_id s) m) eqn:E.
      - apply andb_prop in E as [_ E]. rewrite mapHas_known in E.
        apply known_true in E. split; [exact Hm|].
        split; [|split; [auto|lia]].
        intros k. split; [auto|]. intros [->|H]; auto.
      - split; [exact (mapSet_keyedOnce s m Hm)|].
        split; [intros k; apply mapSet_In_key|].
        split; [intros y; apply mapSet_In_value|apply mapSet_length]. }
    destruct H1 as (Hk1 & Hi1 & Hv1 & Hl1).
    destruct (IH m1 Hk1) as (Hk & Hi & Hv & Hl).
    split; [exact Hk|]. split; [|split].
    + intros k. rewrite Hi, Hi1. cbn [map In]. split; intros H; intuition auto.
    + intros y Hy. apply Hv in Hy as [Hy|Hy]; [|right; now right].
      apply Hv1 in Hy as [->|Hy]; [right; now left|now left].
    + cbn [length]. lia.
Qed.

Lemma combine_keyedOnce (services newServices : list service) :
  keyedOnce (combine services newServices)
  /\ (forall k, In k (map fst (combine services newServices))
                <-> In k (map _id services) \/ In k (map _id newServices))
  /\ (forall y, In y (map snd (combine services newServices)) ->
                In y services \/ In y newServices)
  /\ length (combine services newServices)
     <= length services + length newServices.
Proof.
  unfold combine.
  destruct (combine_fold services false []) as (Hk1 & Hi1 & Hv1 & Hl1).
  { split; constructor. }
  cbn [andb] in *.
  set (locals := fold_left (fun m s => mapSet (_id s) s m) services []) in *.
  destruct (combine_fold newServices true locals Hk1) as (Hk & Hi & Hv & Hl).
  cbn [andb] in *.
  split; [exact Hk|]. split; [|split].
  - intros k. rewrite Hi, Hi1. cbn [map In]. tauto.
  - intros y Hy. apply Hv in Hy as [Hy|Hy]; auto.
    apply Hv1 in Hy as [[]|Hy]. auto.
  - cbn [length] in Hl1. lia.
Qed.

Lemma keyedOnce_ids (m : list (str * service)) :
  keyedOnce m -> map _id (map snd m) = map fst m.
Proof.
  intros [_ H]. induction m as [|kv m IH]; [reflexivity|].
  apply List.Forall_cons_iff in H as [Hk H]. cbn [map]. now rewrite Hk, IH.
Qed.

(** Property X27.  Whatever the local and the
    new records are (also with repeated identities among them), the
    merged list holds every identity of the inputs exactly once, every
    record of it is one of the input records, and it is never longer
    than the two inputs together. *)
Theorem merged_records_have_distinct_identities
    (services newServices : list service) :
  let combined := combinedServices services newServices in
  List.NoDup (map _id combined)
  /\ (forall k, In k (map _id combined)
                <-> In k (map _id services) \/ In k (map _id newServices))
  /\ (forall s, In s combined -> In s services \/ In s newServices)
  /\ length combined <= length services + length newServices.
Proof.
  intros combined.
  destruct (combine_keyedOnce services newServices) as (Hk & Hi & Hv & Hl).
  assert (Hp : Permutation combined (map snd (combine services newServices)))
    by apply sort_Permutation.
  assert (Hids : Permutation (map _id combined)
                   (map fst (combine services newServices))).
  { rewrite <- (keyedOnce_ids _ Hk). now apply Permutation_map. }
  split; [|split; [|split]].
  - eapply Permutation_NoDup; [symmetry; exact Hids|apply Hk].
  - intros k. rewrite <- Hi. split; apply Permutation_in; [|symmetry]; exact Hids.
  - intros s Hs. apply Hv. eapply Permutation_in; [exact Hp|exact Hs].
  - rewrite (Permutation_length Hp), length_map. exact Hl.
Qed.

End MergedList.


(** * Pages of a merged answer *)

Section MergedPages.

Lemma slice_beyond {A : Type} (start stop : nat) (l : list A) :
  length l <= start -> slice start stop l = [].
Proof.
  intros H. unfold slice. rewrite skipn_all2 by exact H. apply firstn_nil.
Qed.

Lemma slice_length {A : Type} (start stop : nat) (l : list A) :
  length (slice start stop l) <= stop - start.
Proof. unfold slice. apply firstn_le_length. Qed.

(** Property X28.  On the path that merges remote
    results, the page is cut out of the merged list a second time: for
    a page of 2 or more whose limit is at least the number of local
    records of that page plus the number of remote candidates, the
    answer holds no records at all, while its total is the size of the
    merged list. *)
Theorem later_pages_of_a_merge_are_empty (e : env) (req : request) (w : world)
    (p : params) (services : list service) (total : nat)
    (py : PythonApiService.searchResult) :
  validate (req_body req) = Some p ->
  fst (CacheService.get (now e) (searchCacheKey p) (cacheService w)) = None ->
  Service_find e (searchQueryOf (req_user req) p) = Some (services, total) ->
  length services < 5 -> total < 10 ->
  PythonApiService.customSearch (PythonApi.post (maxRetries e) (transport e))
  = Some py ->
  PythonApiService.results py <> [] ->
  2 <= page p ->
  length services + length (PythonApiService.results py) <= limit p ->
  responseOf (search e req w)
  = paginated [] (page p) (limit p)
      (length (combinedServices services
                 (fst (ingest e (p_category p) (PythonApiService.results py)))))
      ObtainedCombined.
Proof.
  intros Hv Hm Hf H5 H10 Hr Hne Hpg Hlen.
  rewrite (search_combined e req w p services total py Hv Hm Hf H5 H10 Hr Hne).
  rewrite slice_beyond; [reflexivity|].
  set (news := fst (ingest e (p_category p) (PythonApiService.results py))).
  assert (Hn : length news <= length (PythonApiService.results py)).
  { destruct (ingest_fold e (p_category p) (PythonApiService.results py) 0 ([], [])
                (fun _ => True)) as (H1 & _); cbn [fst snd]; auto.
    fold (ingest e (p_category p) (PythonApiService.results py)) in H1.
    fold news in H1. cbn [fst snd length] in H1. lia. }
  assert (Hc : length (combinedServices services news)
               <= length services + length news).
  { unfold combinedServices. rewrite sort_length, length_map.
    apply combine_keyedOnce. }
  nia.
Qed.

(** A merged answer never holds more records than the limit. *)
Lemma merged_pages_hold_at_most_limit_records (e : env) (req : request)
    (w : world) (d : list service) :
  cacheHit (traceOf (search e req w)) = false ->
  resp_message (responseOf (search e req w)) = ObtainedCombined ->
  resp_data (responseOf (search e req w)) = Some d ->
  exists p, validate (req_body req) = Some p /\ length d <= limit p.
Proof.
  unfold search, responseOf, traceOf.
  destruct (validate (req_body req)) as [p|]; [|discriminate].
  destruct (CacheService.get (now e) (searchCacheKey p) (cacheService w))
    as [[c|] cs]; [discriminate|].
  destruct (Service_find e _) as [[services total]|]; [|discriminate].
  destruct ((5 <=? length services) || (10 <=? total)); [discriminate|].
  destruct (PythonApiService.customSearch _) as [py|]; [|discriminate].
  destruct (PythonApiService.success py && _); [|discriminate].
  destruct (ingest e _ _) as [newServices lg]. cbn [fst snd].
  rewrite finish_response. cbn [resp_data paginated].
  intros _ _ [= <-]. exists p. split; [reflexivity|].
  rewrite length_map. etransitivity; [apply slice_length|]. lia.
Qed.

End MergedPages.

(** Property X28 at a concrete input. *)
Lemma later_pages_of_a_merge_are_empty_witness :
  responseOf (search envSecondPage secondPageOfFive freshWorld)
  = paginated [] 2 5 5 ObtainedCombined.
Proof.
  exact (later_pages_of_a_merge_are_empty envSecondPage secondPageOfFive freshWorld
           (mkParams (lit "plumber") VUndefined VUndefined VUndefined 2 5)
           twoLocal 7
           (PythonApiService.mkSearchResult true (map candidateFor (firstn 3 fiveNew)))
           eq_refl eq_refl eq_refl ltac:(cbn; lia) ltac:(lia) eq_refl
           ltac:(discriminate) ltac:(cbn; lia) ltac:(cbn; lia)).
Defined.


(** * The search history endpoints *)

Section RecentFacts.
Import RecentSearches.

(** Property X29.  After
    [getRecentSearches] has answered a caller from the user store, a
    further call for that caller within 60 seconds, on the cache as the
    first call left it, is answered from the cache with that same
    history, whatever the user store holds by then (searches recorded
    in between are not shown). *)
Theorem recent_searches_are_served_from_the_cache_for_a_minute
    (e1 e2 : env) (user : option caller) (w : world)
    (l : list User.recentSearch) (us : gmap str User.user) :
  fst (getRecentSearches e1 user w) = Some (success Obtained (Some l)) ->
  (now e2 <= now e1 + 60000)%Z ->
  fst (getRecentSearches e2 user
         (mkWorld (cacheService (snd (getRecentSearches e1 user w))) us))
  = Some (success FromCache (Some l)).
Proof.
  intros H Ht.
  destruct (getRecentSearches e1 user w) as [r w1] eqn:E.
  cbn [fst snd] in *. subst r.
  unfold getRecentSearches in E.
  destruct (authenticated user) as [i|] eqn:Ha; [|discriminate].
  destruct (CacheService.get (now e1) _ (cacheService w)) as [[c|] cs];
    [discriminate|].
  destruct (User_rejects e1); [discriminate|].
  destruct (users w !! i) as [u|]; [|discriminate].
  injection E as El Ew. subst l w1.
  unfold getRecentSearches. rewrite Ha. cbn [cacheService].
  rewrite (get_live (now e2) _ _ (CacheService.mkEntry (User.recentSearches u)
                                    (now e1 + 60000)%Z)).
  - reflexivity.
  - apply lookup_insert_eq.
  - exact Ht.
Qed.

(** Property X30.  After [clearRecentSearches] has
    succeeded for a caller, the next [getRecentSearches] of that caller,
    at any time, is answered from the user store with the empty
    history: the cached history was deleted with it. *)
Theorem cleared_history_is_read_empty (e1 e2 : env) (user : option caller)
    (w : world) :
  fst (clearRecentSearches e1 user w) = Some (success Cleared None) ->
  User_rejects e2 = false ->
  fst (getRecentSearches e2 user (snd (clearRecentSearches e1 user w)))
  = Some (success Obtained (Some [])).
Proof.
  unfold clearRecentSearches.
  destruct (authenticated user) as [i|] eqn:Ha; [|discriminate].
  destruct (User_rejects e1); [discriminate|].
  destruct (users w !! i) as [u|]; [|discriminate].
  cbn [fst snd]. intros _ Hr.
  unfold getRecentSearches. rewrite Ha. cbn [cacheService users].
  unfold CacheService.get, CacheService.nodeGet.
  rewrite delete_cache, lookup_delete_eq, Hr, lookup_insert_eq. reflexivity.
Qed.

End RecentFacts.

(** Property X29 at a concrete input. *)
Lemma recent_searches_are_served_from_the_cache_for_a_minute_witness :
  let u1 := Some (mkCaller (lit "u1") true) in
  let w0 := RecentSearches.mkWorld CacheService.empty (users (worldWith "u1")) in
  let first := RecentSearches.getRecentSearches (RecentSearches.mkEnv 1000 false) u1 w0 in
  let searched :=
    worldOf (search (envOf 2000 [plumberA] 12 emptyAnswer) (signedIn "u1" "plumber")
               (worldWith "u1")) in
  fst (RecentSearches.getRecentSearches (RecentSearches.mkEnv 3000 false) u1
         (RecentSearches.mkWorld (RecentSearches.cacheService (snd first))
            (users searched)))
  = Some (RecentSearches.success RecentSearches.FromCache (Some []))
  /\ (User.recentSearches <$> users searched !! lit "u1")
     = Some [User.mkRecentSearch (lit "plumber") 2000].
Proof.
  intros u1 w0 first searched. split.
  - exact (recent_searches_are_served_from_the_cache_for_a_minute
             (RecentSearches.mkEnv 1000 false) (RecentSearches.mkEnv 3000 false)
             u1 w0 [] (users searched) eq_refl ltac:(vm_compute; discriminate)).
  - vm_compute. reflexivity.
Defined.

(** Property X30 at a concrete input. *)
Lemma cleared_history_is_read_empty_witness :
  let u1 := Some (mkCaller (lit "u1") true) in
  let searched :=
    worldOf (search (envOf 2000 [plumberA] 12 emptyAnswer) (signedIn "u1" "plumber")
               (worldWith "u1")) in
  let w0 := RecentSearches.mkWorld CacheService.empty (users searched) in
  let e := RecentSearches.mkEnv 3000 false in
  fst (RecentSearches.getRecentSearches e u1
         (snd (RecentSearches.clearRecentSearches e u1 w0)))
  = Some (RecentSearches.success RecentSearches.Obtained (Some [])).
Proof.
  intros u1 searched w0 e.
  exact (cleared_history_is_read_empty e e u1 w0
           ltac:(vm_compute; reflexivity) eq_refl).
Defined.

(** * A normalized query is its own normal form *)

Section Idempotence.

Lemma isWhiteSpace_lowerChar (c : ascii) :
  isWhiteSpace (lowerChar c) = isWhiteSpace c.
Proof. destruct c as [[] [] [] [] [] [] [] []]; vm_compute; reflexivity. Qed.

Lemma lowerChar_idem (c : ascii) : lowerChar (lowerChar c) = lowerChar c.
Proof. destruct c as [[] [] [] [] [] [] [] []]; vm_compute; reflexivity. Qed.

Lemma toLowerCase_idem (s : str) : toLowerCase (toLowerCase s) = toLowerCase s.
Proof.
  unfold toLowerCase. rewrite map_map. apply map_ext. apply lowerChar_idem.
Qed.

Lemma words_toLowerCase (s : str) :
  words (toLowerCase s) = map toLowerCase (words s).
Proof.
  induction s as [|c r IH]; [reflexivity|].
  cbn [toLowerCase map words]. fold (toLowerCase r).
  rewrite isWhiteSpace_lowerChar.
  destruct (isWhiteSpace c); [exact IH|].
  destruct r as [|c' r']; [reflexivity|].
  cbn [toLowerCase map] in *. fold (toLowerCase r') in *.
  rewrite isWhiteSpace_lowerChar.
  destruct (isWhiteSpace c'); [now rewrite IH|].
  rewrite IH. destruct (words (c' :: r')); reflexivity.
Qed.

Lemma toLowerCase_join (ws : list str) :
  toLowerCase (join [" "%char] ws) = join [" "%char] (map toLowerCase ws).
Proof.
  induction ws as [|w ws IH]; [reflexivity|].
  destruct ws as [|w' ws']; [reflexivity|].
  cbn [join map] in *. unfold toLowerCase in *. rewrite !map_app, IH.
  reflexivity.
Qed.

Lemma words_word (w : str) :
  w <> [] -> Forall (fun c => isWhiteSpace c = false) w -> words w = [w].
Proof.
  intros Hne Hw. induction w as [|c w IH]; [congruence|].
  apply List.Forall_cons_iff in Hw as [Hc Hw].
  cbn [words]. rewrite Hc. destruct w as [|c' w']; [reflexivity|].
  pose proof Hw as Hw'. apply List.Forall_cons_iff in Hw' as [Hc' _].
  rewrite Hc', IH by (congruence || assumption). reflexivity.
Qed.

Lemma words_word_app (w r : str) :
  w <> [] -> Forall (fun c => isWhiteSpace c = false) w ->
  words (w ++ " "%char :: r) = w :: words r.
Proof.
  intros Hne Hw. induction w as [|c w IH]; [congruence|].
  apply List.Forall_cons_iff in Hw as [Hc Hw].
  cbn [app words]. rewrite Hc. destruct w as [|c' w'].
  - reflexivity.
  - pose proof Hw as Hw'. apply List.Forall_cons_iff in Hw' as [Hc' _].
    cbn [app] in *. rewrite Hc', IH by (congruence || assumption). reflexivity.
Qed.

Lemma words_are_words (s : str) :
  Forall (fun w => w <> [] /\ Forall (fun c => isWhiteSpace c = false) w)
    (words s).
Proof.
  induction s as [|c r IH]; [constructor|].
  cbn [words]. destruct (isWhiteSpace c) eqn:Ec; [exact IH|].
  assert (H1 : [c] <> [] /\ Forall (fun c => isWhiteSpace c = false) [c])
    by (split; [discriminate|repeat constructor; exact Ec]).
  destruct r as [|c' r']; [constructor; [exact H1|constructor]|].
  destruct (isWhiteSpace c'); [constructor; [exact H1|exact IH]|].
  destruct (words (c' :: r')) as [|w ws]; [constructor; [exact H1|constructor]|].
  apply List.Forall_cons_iff in IH as [[Hne Hw] IH].
  constructor; [|exact IH]. split; [discriminate|].
  constructor; [exact Ec|exact Hw].
Qed.

Lemma words_join (ws : list str) :
  Forall (fun w => w <> [] /\ Forall (fun c => isWhiteSpace c = false) w) ws ->
  words (join [" "%char] ws) = ws.
Proof.
  induction ws as [|w ws IH]; [reflexivity|].
  intros H. apply List.Forall_cons_iff in H as [[Hne Hw] H].
  destruct ws as [|w' ws'].
  - cbn [join]. now apply words_word; auto.
  - change (join [" "%char] (w :: w' :: ws'))
      with (w ++ " "%char :: join [" "%char] (w' :: ws')).
    rewrite words_word_app by assumption. now rewrite IH.
Qed.

(** Property X8.  The normalisation of a query text is
    idempotent, so a text that is already normalised keys as itself:
    the search key of the normalised text is the search key of the
    text. *)
Theorem normalizeQuery_is_idempotent (q : str) (filters : object) :
  normalizeQuery (normalizeQuery q) = normalizeQuery q
  /\ getSearchKey (normalizeQuery q) filters = getSearchKey q filters.
Proof.
  assert (H : normalizeQuery (normalizeQuery q) = normalizeQuery q).
  { rewrite !normalizeQuery_normalForm. unfold specNormalForm.
    rewrite toLowerCase_join, <- words_toLowerCase, toLowerCase_idem.
    now rewrite words_join by apply words_are_words. }
  split; [exact H|]. unfold getSearchKey. now rewrite H.
Qed.

End Idempotence.
